(** * browser-ext-template: messaging, settings store and feature gate

    A shallow embedding of [src/shared/types.ts], [src/shared/storage.ts]
    and [src/shared/messaging.ts], followed by the properties of the
    settings store, the feature gate, the broadcast helper and the message
    listener.

    JavaScript objects are finite maps from property names to values
    ([gmap string value]), so that deep equality of two records is plain
    equality.  [async] functions are state-passing computations over the
    browser API they await, with thrown values made explicit.  The
    [console.error] diagnostics of the [catch] blocks are left out. *)

From stdpp Require Import gmap strings list fin_maps pretty.

Open Scope string_scope.

(* ===================================================================== *)
(** ** JavaScript values and the fragments of the language the code uses *)
(* ===================================================================== *)

Module JS.

(** Values that survive structured serialisation, which is what the
    storage area and the message channel hold.  Numbers are the integers
    the code handles (tab identifiers). *)
#[warnings="-register-all"]
Inductive value : Type :=
  | VNull
  | VBool (b : bool)
  | VNum (n : Z)
  | VStr (s : string)
  | VArr (l : list value)
  | VObj (m : gmap string value).

(** What a [throw] or a rejected promise carries: an [Error] instance with
    its [message], or any other value. *)
Inductive thrown : Type :=
  | ErrorObj (message : string)
  | NonError (v : value).

(** [error instanceof Error ? error.message : 'Unknown error'] *)
Definition error_text (error : thrown) : string :=
  match error with
  | ErrorObj message => message
  | NonError _ => "Unknown error"
  end.

(** Index-named properties of an array or of a string. *)
Definition index_props (l : list value) : gmap string value :=
  list_to_map (imap (λ (i : nat) v, (pretty i, v)) l).

(** The characters of a string; strings are taken as ASCII text, where
    one character is one code unit. *)
Definition chars (s : string) : list value :=
  (λ c, VStr (String c "")) <$> String.list_ascii_of_string s.

(** Own enumerable properties, as copied by object spread [{...v}]. *)
Definition own_props (v : value) : gmap string value :=
  match v with
  | VObj m => m
  | VArr l => index_props l
  | VStr s => index_props (chars s)
  | VNull | VBool _ | VNum _ => ∅
  end.

(** [{...a, ...b}] on the property maps: the right operand wins. *)
Definition spread (a b : gmap string value) : gmap string value := b ∪ a.

(** [v ?? d], with [None] for [undefined]. *)
Definition nullish_or (v : option value) (d : value) : value :=
  match v with
  | None | Some VNull => d
  | Some v => v
  end.

(** Property names every ordinary object inherits from [Object.prototype]. *)
Definition Object_prototype_keys : list string :=
  [ "constructor"; "__defineGetter__"; "__defineSetter__"; "hasOwnProperty";
    "__lookupGetter__"; "__lookupSetter__"; "isPrototypeOf";
    "propertyIsEnumerable"; "toString"; "valueOf"; "__proto__";
    "toLocaleString" ].

(** Result of [o[k]] on an object literal [o]: an own property, a member
    inherited from [Object.prototype], or [undefined]. *)
Inductive property (A : Type) : Type :=
  | Own (a : A)
  | Inherited (name : string)
  | Undefined.
Arguments Own {A} a.
Arguments Inherited {A} name.
Arguments Undefined {A}.

Definition get_property {A} (o : gmap string A) (k : string) : property A :=
  match o !! k with
  | Some a => Own a
  | None =>
      if bool_decide (k ∈ Object_prototype_keys) then Inherited k
      else Undefined
  end.

(** Outcome of a call: a value or a thrown one. *)
Inductive result (A : Type) : Type :=
  | Ok (a : A)
  | Thrown (e : thrown).
Arguments Ok {A} a.
Arguments Thrown {A} e.

(** An [async] function awaiting a browser API whose state is [S]. *)
Definition Async (S A : Type) : Type := S → result A * S.

#[global] Instance Async_ret {S} : MRet (Async S) :=
  λ A (a : A) s, (Ok a, s).

#[global] Instance Async_bind {S} : MBind (Async S) :=
  λ A B (f : A → Async S B) (m : Async S A) s,
    match m s with
    | (Ok a, s') => f a s'
    | (Thrown e, s') => (Thrown e, s')
    end.

(** [try { body } catch (error) { handler }]: effects of the body that
    happened before the throw stay. *)
Definition try_catch {S A} (body : Async S A) (handler : thrown → Async S A)
  : Async S A :=
  λ s, match body s with
       | (Ok a, s') => (Ok a, s')
       | (Thrown e, s') => handler e s'
       end.

(** [{ success: false, error }] *)
Definition failure (error : string) : value :=
  VObj {[ "success" := VBool false; "error" := VStr error ]}.

End JS.

Import JS.

(* ===================================================================== *)
(** ** src/shared/types.ts *)
(* ===================================================================== *)

Module Types.

Inductive SubscriptionTier : Type := free | pro.

Definition tier_name (t : SubscriptionTier) : string :=
  match t with free => "free" | pro => "pro" end.

Inductive FeatureKey : Type :=
  | basic_feature
  | advanced_analytics
  | export_data
  | custom_themes
  | priority_support.

Definition feature_name (f : FeatureKey) : string :=
  match f with
  | basic_feature => "basic_feature"
  | advanced_analytics => "advanced_analytics"
  | export_data => "export_data"
  | custom_themes => "custom_themes"
  | priority_support => "priority_support"
  end.

Definition DEFAULT_USER_SETTINGS : gmap string value :=
  {[ "tier" := VStr "free";
     "enabled" := VBool true;
     "theme" := VStr "system";
     "notifications" :=
       VObj {[ "enabled" := VBool true; "sound" := VBool false ]};
     "preferences" := VObj ∅ ]}.

Definition FEATURE_ACCESS : gmap string string :=
  {[ "basic_feature" := "free";
     "advanced_analytics" := "pro";
     "export_data" := "pro";
     "custom_themes" := "pro";
     "priority_support" := "pro" ]}.

(** The function as it runs: both arguments are strings, and the table
    lookup is a property access on an object literal.  A value inherited
    from [Object.prototype] is not the string ['free']. *)
Definition hasFeatureAccess (tier feature : string) : bool :=
  match get_property FEATURE_ACCESS feature with
  | Own requiredTier =>
      if String.eqb requiredTier "free" then true else String.eqb tier "pro"
  | Inherited _ | Undefined => String.eqb tier "pro"
  end.

Inductive StorageKey : Type := USER_SETTINGS | LAST_SYNC | CACHE.

Definition STORAGE_KEYS (key : StorageKey) : string :=
  match key with
  | USER_SETTINGS => "userSettings"
  | LAST_SYNC => "lastSync"
  | CACHE => "cache"
  end.

End Types.

Import Types.

(* ===================================================================== *)
(** ** src/shared/storage.ts *)
(* ===================================================================== *)

Module Storage.

(** [chrome.storage.sync] as the helpers see it: the stored items, and
    whether a read or a write is rejected (backing store unavailable,
    quota exceeded), with the value the rejection carries. *)
Record SyncArea : Type := mkSyncArea {
  items : gmap string value;
  get_rejects : option thrown;
  set_rejects : option thrown;
}.

(** [chrome.storage.sync.get(key)]: an object holding [key] when an item
    is stored under it, the empty object otherwise. *)
Definition chrome_storage_sync_get (key : string)
  : Async SyncArea (gmap string value) :=
  λ area,
    match get_rejects area with
    | Some e => (Thrown e, area)
    | None =>
        (Ok match items area !! key with
            | Some v => {[ key := v ]}
            | None => ∅
            end,
         area)
    end.

(** [chrome.storage.sync.set(entries)] *)
Definition chrome_storage_sync_set (entries : gmap string value)
  : Async SyncArea unit :=
  λ area,
    match set_rejects area with
    | Some e => (Thrown e, area)
    | None =>
        (Ok (),
         {| items := entries ∪ items area;
            get_rejects := get_rejects area;
            set_rejects := set_rejects area |})
    end.

Definition getStorageValue (key : StorageKey) (defaultValue : value)
  : Async SyncArea value :=
  try_catch
    (result ← chrome_storage_sync_get (STORAGE_KEYS key);
     mret (nullish_or (result !! STORAGE_KEYS key) defaultValue))
    (λ _error, mret defaultValue).

Definition setStorageValue (key : StorageKey) (v : value)
  : Async SyncArea bool :=
  try_catch
    (chrome_storage_sync_set {[ STORAGE_KEYS key := v ]} ≫= λ _, mret true)
    (λ _error, mret false).

Definition getUserSettings : Async SyncArea (gmap string value) :=
  settings ← getStorageValue USER_SETTINGS (VObj DEFAULT_USER_SETTINGS);
  mret (spread DEFAULT_USER_SETTINGS (own_props settings)).

Definition saveUserSettings (settings : gmap string value)
  : Async SyncArea bool :=
  setStorageValue USER_SETTINGS (VObj settings).

(** [None] is the [null] the function returns on failure. *)
Definition updateUserSettings (updates : gmap string value)
  : Async SyncArea (option (gmap string value)) :=
  try_catch
    (currentSettings ← getUserSettings;
     let newSettings := spread currentSettings updates in
     success ← saveUserSettings newSettings;
     mret (if success : bool then Some newSettings else None))
    (λ _error, mret None).

Definition resetUserSettings : Async SyncArea bool :=
  saveUserSettings DEFAULT_USER_SETTINGS.

End Storage.

Import Storage.

(* ===================================================================== *)
(** ** src/shared/messaging.ts *)
(* ===================================================================== *)

Module Messaging.

(** A message: its [type] tag and, for the tags that have one, a payload. *)
Record ExtensionMessage : Type := mkMessage {
  msg_type : string;
  payload : option value;
}.

Definition message_value (message : ExtensionMessage) : value :=
  VObj (match payload message with
        | Some p => {[ "type" := VStr (msg_type message); "payload" := p ]}
        | None => {[ "type" := VStr (msg_type message) ]}
        end).

(** [chrome.tabs.Tab]: [id] is optional. *)
Record Tab : Type := mkTab {
  tab_id : option Z;
  tab_url : string;
  tab_title : string;
}.

Record MessageSender : Type := mkSender { sender_tab : option Tab }.

(** [if (tab.id)]: an absent identifier and [0] are falsy. *)
Definition truthy_id (id : option Z) : option Z :=
  match id with
  | Some n => if (n =? 0)%Z then None else Some n
  | None => None
  end.

(** [chrome.tabs] during one call: what [query({})] settles to, what
    [sendMessage(tabId, message)] settles to for each tab, and the sends
    issued so far, oldest first. *)
Record Tabs : Type := mkTabs {
  query : result (list Tab);
  respond : Z → ExtensionMessage → result value;
  sent : list (Z * ExtensionMessage);
}.

Definition chrome_tabs_query : Async Tabs (list Tab) :=
  λ api, (query api, api).

Definition chrome_tabs_sendMessage (tabId : Z) (message : ExtensionMessage)
  : Async Tabs value :=
  λ api,
    (respond api tabId message,
     {| query := query api;
        respond := respond api;
        sent := sent api ++ [(tabId, message)] |}).

Definition sendMessageToTab (tabId : Z) (message : ExtensionMessage)
  : Async Tabs value :=
  try_catch
    (chrome_tabs_sendMessage tabId message)
    (λ error, mret (failure (error_text error))).

(** The body of [broadcastToAllTabs] runs over the browser API together
    with the local [results] map it fills. *)
Definition with_api {A} (m : Async Tabs A) : Async (gmap Z value * Tabs) A :=
  λ '(results, api), let '(r, api') := m api in (r, (results, api')).

Definition results_set (tabId : Z) (response : value)
  : Async (gmap Z value * Tabs) unit :=
  λ '(results, api), (Ok (), (<[tabId := response]> results, api)).

Fixpoint for_each {S A} (f : A → Async S unit) (l : list A) : Async S unit :=
  match l with
  | [] => mret ()
  | a :: l' => f a ≫= λ _, for_each f l'
  end.

(** [Promise.all(tabs.map(async (tab) => ...))]: the callbacks start in
    the order of [tabs], and each one writes under its own tab's
    identifier, so the map that results does not depend on the order in
    which the sends settle. *)
Definition broadcastToAllTabs (message : ExtensionMessage)
  : Async Tabs (gmap Z value) :=
  λ api,
    let body : Async (gmap Z value * Tabs) unit :=
      tabs ← with_api chrome_tabs_query;
      for_each
        (λ tab,
           match truthy_id (tab_id tab) with
           | Some tabId =>
               response ← with_api (sendMessageToTab tabId message);
               results_set tabId response
           | None => mret ()
           end)
        tabs in
    let '(_, (results, api')) :=
      try_catch body (λ _error, mret ()) (∅, api) in
    (Ok results, api').

(** What a handler does when called: return a value, return a promise,
    or throw. *)
Inductive Promise : Type :=
  | Fulfills (v : value)
  | Rejects (error : thrown)
  | Pending.

Inductive HandlerResult : Type :=
  | Returns (v : value)
  | ReturnsPromise (p : Promise)
  | Raises (error : thrown).

Abbreviation MessageHandler :=
  (ExtensionMessage → MessageSender → HandlerResult).

(** A member of [Object.prototype] reached through [handlers[tag]] and
    called as [handler(message, sender)], with no receiver:
    [__proto__] is the prototype object itself and cannot be called,
    [constructor] is [Object] and returns its first argument,
    [toString] names the missing receiver, and the other methods throw a
    [TypeError] on the missing receiver (the texts are the engine's). *)
Definition call_inherited (name : string) (message : ExtensionMessage)
  : HandlerResult :=
  if String.eqb name "__proto__" then
    Raises (ErrorObj "handler is not a function")
  else if String.eqb name "constructor" then Returns (message_value message)
  else if String.eqb name "toString" then Returns (VStr "[object Undefined]")
  else if String.eqb name "toLocaleString" then
    Raises
      (ErrorObj "Object.prototype.toLocaleString called on null or undefined")
  else Raises (ErrorObj "Cannot convert undefined or null to object").

(** One run of the listener on a channel of type [C]: what it returns to
    the runtime (or throws), what it does to the channel before
    returning, and what it does once the handler's promise has settled. *)
Record ListenerRun (C : Type) : Type := mkRun {
  returned : result bool;
  replied : C → C;
  replied_later : C → C;
}.
Arguments mkRun {C}.
Arguments returned {C}.
Arguments replied {C}.
Arguments replied_later {C}.

Definition createMessageListener {C} (handlers : gmap string MessageHandler)
    (message : ExtensionMessage) (sender : MessageSender)
    (sendResponse : value → C → C) : ListenerRun C :=
  let dispatch (result : HandlerResult) : ListenerRun C :=
    match result with
    | Raises error => mkRun (Thrown error) id id
    | ReturnsPromise p =>
        mkRun (Ok true) id
          match p with
          | Fulfills v => sendResponse v
          | Rejects error => sendResponse (failure (error_text error))
          | Pending => id
          end
    | Returns v => mkRun (Ok false) (sendResponse v) id
    end in
  match get_property handlers (msg_type message) with
  | Own handler => dispatch (handler message sender)
  | Inherited name => dispatch (call_inherited name message)
  | Undefined =>
      mkRun (Ok false)
        (sendResponse
           (failure ("Unknown message type: " +:+ msg_type message)))
        id
  end.

End Messaging.

Import Messaging.

(* ===================================================================== *)
(** ** Vocabulary of the statements *)
(* ===================================================================== *)

Module Props.

(** A record [v] has every field of [schema], nested ones included: where
    the schema is an object, each of its properties is a property of [v]
    that in turn has every field of the schema's. *)
Fixpoint has_fields (schema v : value) {struct schema} : bool :=
  match schema with
  | VObj fields =>
      map_fold
        (λ k s acc,
           match own_props v !! k with
           | Some v' => has_fields s v' && acc
           | None => false
           end)
        true fields
  | _ => true
  end.

(** A working area holding [stored]. *)
Definition area_with (stored : gmap string value) : SyncArea :=
  {| items := stored; get_rejects := None; set_rejects := None |}.

(** The channel that records every response handed to [sendResponse]. *)
Definition record_response (response : value) (log : list value)
  : list value :=
  log ++ [response].

(** The [success] flag of a response, when it has one. *)
Definition success_of (response : value) : option bool :=
  match own_props response !! "success" with
  | Some (VBool b) => Some b
  | _ => None
  end.

(** Identifiers of the enumerated tabs that pass [if (tab.id)], in
    enumeration order. *)
Definition addressable (tabs : list Tab) : list Z :=
  omap (λ tab, truthy_id (tab_id tab)) tabs.

(** The entry a peer contributes: its response, or the failure record
    made from the error of its send. *)
Definition peer_reply (api : Tabs) (message : ExtensionMessage) (tabId : Z)
  : value :=
  match respond api tabId message with
  | Ok response => response
  | Thrown error => failure (error_text error)
  end.

(** Every response a run of the listener hands to [sendResponse], before
    it returns and after the handler's promise has settled, in order. *)
Definition responses (run : ListenerRun (list value)) : list value :=
  replied_later run (replied run []).

(** [{ success: false, error: `Unknown message type: ${tag}` }] *)
Definition unknown_type (tag : string) : value :=
  failure ("Unknown message type: " +:+ tag).

(** The browser API after the sends [sends] were issued. *)
Definition api_after (api : Tabs) (sends : list (Z * ExtensionMessage))
  : Tabs :=
  {| query := query api; respond := respond api;
     sent := sent api ++ sends |}.

(** [results] after the peers [ids] have each contributed their entry. *)
Definition replies (api : Tabs) (message : ExtensionMessage)
    (ids : list Z) (results : gmap Z value) : gmap Z value :=
  foldl (λ acc tabId, <[ tabId := peer_reply api message tabId ]> acc)
        results ids.

(** A stored partial record is complete below the top level: each field
    it does have has every field the default has for it.  This is what
    the type [Partial<UserSettings>] asks of a value. *)
Definition nested_complete (P : gmap string value) : Prop :=
  ∀ k s v,
    DEFAULT_USER_SETTINGS !! k = Some s → P !! k = Some v →
    has_fields s v = true.

(** What [getStorageValue] hands to [getUserSettings]: the stored record,
    or the defaults when the read is rejected or nothing (or [null]) is
    stored. *)
Definition settings_read (area : SyncArea) : value :=
  match get_rejects area with
  | Some _ => VObj DEFAULT_USER_SETTINGS
  | None =>
      nullish_or (items area !! STORAGE_KEYS USER_SETTINGS)
                 (VObj DEFAULT_USER_SETTINGS)
  end.

(** The area after a write of [settings] to the settings slot went
    through. *)
Definition area_saved (settings : gmap string value) (area : SyncArea)
  : SyncArea :=
  {| items := <[ STORAGE_KEYS USER_SETTINGS := VObj settings ]> (items area);
     get_rejects := get_rejects area;
     set_rejects := set_rejects area |}.

(** [{ theme }], an update that touches the theme only. *)
Definition theme_update (theme : value) : gmap string value :=
  {[ "theme" := theme ]}.

End Props.

Import Props.

(* ===================================================================== *)
(** ** More of the language: truthiness, member access, string coercion *)
(* ===================================================================== *)

Module Coercion.

(** [if (v)] on a value that is present. *)
Definition truthy (v : value) : bool :=
  match v with
  | VNull => false
  | VBool b => b
  | VNum n => negb (n =? 0)%Z
  | VStr s => negb (String.eqb s "")
  | VArr _ | VObj _ => true
  end.

(** [if (v)] where [v] may be [undefined]. *)
Definition truthy_opt (v : option value) : bool :=
  match v with
  | Some v => truthy v
  | None => false
  end.

(** [v.name] for the member names the code reads ([success], [data],
    [enabled], [action], [feature]), which no built-in prototype defines:
    a [TypeError] on [undefined] and [null], the own property otherwise. *)
Definition member (v : option value) (name : string)
  : result (option value) :=
  match v with
  | None =>
      Thrown (ErrorObj ("Cannot read properties of undefined (reading '"
                        +:+ name +:+ "')"))
  | Some VNull =>
      Thrown (ErrorObj ("Cannot read properties of null (reading '"
                        +:+ name +:+ "')"))
  | Some v => Ok (own_props v !! name)
  end.

(** [v == null]: [undefined] or [null]. *)
Definition nullish (v : option value) : bool :=
  match v with
  | None | Some VNull => true
  | Some _ => false
  end.

(** Conversion of a value to a string, as a template literal and a
    computed property key do it.  A number is printed in decimal, which is
    how the language prints an integer below [1e21] in absolute value
    (from there on it uses exponent notation, which is not modelled).
    An array joins its elements with commas,
    [null] elements counting as empty.  An object without an own
    [toString] property is ["[object Object]"]; with one (which a stored or
    transmitted value cannot make callable) the conversion throws a
    [TypeError]. *)
Fixpoint to_string (v : value) : result string :=
  match v with
  | VNull => Ok "null"
  | VBool b => Ok (if b then "true" else "false")
  | VNum n => Ok (pretty n)
  | VStr s => Ok s
  | VArr l =>
      match
        (fix elements (l : list value) : result (list string) :=
           match l with
           | [] => Ok []
           | x :: l' =>
               match match x with VNull => Ok "" | _ => to_string x end with
               | Ok s =>
                   match elements l' with
                   | Ok rest => Ok (s :: rest)
                   | Thrown e => Thrown e
                   end
               | Thrown e => Thrown e
               end
           end) l
      with
      | Ok parts => Ok (String.concat "," parts)
      | Thrown e => Thrown e
      end
  | VObj m =>
      match m !! "toString" with
      | Some _ => Thrown (ErrorObj "Cannot convert object to primitive value")
      | None => Ok "[object Object]"
      end
  end.

(** The same conversion where the value may be [undefined]. *)
Definition to_string_opt (v : option value) : result string :=
  match v with
  | Some v => to_string v
  | None => Ok "undefined"
  end.

(** [error instanceof Error ? error.message : fallback] *)
Definition error_text_or (fallback : string) (error : thrown) : string :=
  match error with
  | ErrorObj message => message
  | NonError _ => fallback
  end.

(** A settled call seen from inside an [async] function that awaits it. *)
Definition settled {S A} (r : result A) : Async S A := λ s, (r, s).

(** [{ success: true }] and [{ success: true, data }] *)
Definition success_only : value := VObj {[ "success" := VBool true ]}.

Definition success_data (data : value) : value :=
  VObj {[ "success" := VBool true; "data" := data ]}.

End Coercion.

Import Coercion.

(* ===================================================================== *)
(** ** src/shared/storage.ts, the other helpers *)
(* ===================================================================== *)

Module StorageHelpers.

(** [chrome.storage.sync] with its two other operations: the area, and
    whether a removal or a clearing is rejected. *)
Record SyncStore : Type := mkSyncStore {
  sync_area : SyncArea;
  remove_rejects : option thrown;
  clear_rejects : option thrown;
}.

Definition with_items (f : gmap string value → gmap string value)
    (store : SyncStore) : SyncStore :=
  {| sync_area :=
       {| items := f (items (sync_area store));
          get_rejects := get_rejects (sync_area store);
          set_rejects := set_rejects (sync_area store) |};
     remove_rejects := remove_rejects store;
     clear_rejects := clear_rejects store |}.

(** [chrome.storage.sync.remove(key)] *)
Definition chrome_storage_sync_remove (key : string) : Async SyncStore unit :=
  λ store,
    match remove_rejects store with
    | Some e => (Thrown e, store)
    | None => (Ok (), with_items (delete key) store)
    end.

(** [chrome.storage.sync.clear()] *)
Definition chrome_storage_sync_clear : Async SyncStore unit :=
  λ store,
    match clear_rejects store with
    | Some e => (Thrown e, store)
    | None => (Ok (), with_items (λ _, ∅) store)
    end.

Definition removeStorageValue (key : StorageKey) : Async SyncStore bool :=
  try_catch
    (chrome_storage_sync_remove (STORAGE_KEYS key) ≫= λ _, mret true)
    (λ _error, mret false).

Definition clearStorage : Async SyncStore bool :=
  try_catch
    (chrome_storage_sync_clear ≫= λ _, mret true)
    (λ _error, mret false).

(** What the listener of [onUserSettingsChange] receives for one key. *)
Record StorageChange : Type := mkChange {
  newValue : option value;
  oldValue : option value;
}.

(** The listener that [onUserSettingsChange] registers: [None] when it
    does not call [callback], the two arguments of the call otherwise. *)
Definition onUserSettingsChange_listener
    (changes : gmap string StorageChange) (areaName : string)
  : option (gmap string value * option value) :=
  if String.eqb areaName "sync" then
    match changes !! STORAGE_KEYS USER_SETTINGS with
    | Some change =>
        Some (spread DEFAULT_USER_SETTINGS
                (match newValue change with
                 | Some v => own_props v
                 | None => ∅
                 end),
              oldValue change)
    | None => None
    end
  else None.

(** [chrome.storage.local]: keys are arbitrary strings. *)
Record LocalArea : Type := mkLocalArea {
  local_items : gmap string value;
  local_get_rejects : option thrown;
  local_set_rejects : option thrown;
}.

Definition chrome_storage_local_get (key : string)
  : Async LocalArea (gmap string value) :=
  λ area,
    match local_get_rejects area with
    | Some e => (Thrown e, area)
    | None =>
        (Ok match local_items area !! key with
            | Some v => {[ key := v ]}
            | None => ∅
            end,
         area)
    end.

Definition chrome_storage_local_set (entries : gmap string value)
  : Async LocalArea unit :=
  λ area,
    match local_set_rejects area with
    | Some e => (Thrown e, area)
    | None =>
        (Ok (),
         {| local_items := entries ∪ local_items area;
            local_get_rejects := local_get_rejects area;
            local_set_rejects := local_set_rejects area |})
    end.

(** What [result[key]] can be when [key] is any string: a stored value,
    or a member that the result object inherits. *)
Inductive looked_up : Type :=
  | Stored (v : value)
  | Builtin (name : string).

Definition getLocalStorageValue (key : string) (defaultValue : value)
  : Async LocalArea looked_up :=
  try_catch
    (result ← chrome_storage_local_get key;
     mret match get_property result key with
          | Own VNull | Undefined => Stored defaultValue
          | Own v => Stored v
          | Inherited name => Builtin name
          end)
    (λ _error, mret (Stored defaultValue)).

Definition setLocalStorageValue (key : string) (v : value)
  : Async LocalArea bool :=
  try_catch
    (chrome_storage_local_set {[ key := v ]} ≫= λ _, mret true)
    (λ _error, mret false).

End StorageHelpers.

Import StorageHelpers.

(* ===================================================================== *)
(** ** src/shared/messaging.ts, the senders *)
(* ===================================================================== *)

Module Senders.

(** [chrome.runtime] as a sender sees it: what [sendMessage(message)]
    settles to, and the messages sent so far, oldest first.  A call that
    no listener answers resolves to [undefined], which is [None]. *)
Record Runtime : Type := mkRuntime {
  answer : ExtensionMessage → result (option value);
  outbox : list ExtensionMessage;
}.

Definition chrome_runtime_sendMessage (message : ExtensionMessage)
  : Async Runtime (option value) :=
  λ rt,
    (answer rt message,
     {| answer := answer rt; outbox := outbox rt ++ [message] |}).

Definition sendMessage (message : ExtensionMessage)
  : Async Runtime (option value) :=
  try_catch
    (chrome_runtime_sendMessage message)
    (λ error, mret (Some (failure (error_text error)))).

Definition requestSettings : Async Runtime (option value) :=
  sendMessage (mkMessage "GET_SETTINGS" None).

Definition requestUpdateSettings (updates : gmap string value)
  : Async Runtime (option value) :=
  sendMessage (mkMessage "UPDATE_SETTINGS" (Some (VObj updates))).

Definition requestTabInfo : Async Runtime (option value) :=
  sendMessage (mkMessage "GET_TAB_INFO" None).

Definition notifyContentScriptReady (url title : string)
  : Async Runtime (option value) :=
  sendMessage
    (mkMessage "CONTENT_SCRIPT_READY"
       (Some (VObj {[ "url" := VStr url; "title" := VStr title ]}))).

(** [data] is optional; an absent one leaves no property behind. *)
Definition requestAction (action : string) (data : option value)
  : Async Runtime (option value) :=
  sendMessage
    (mkMessage "PERFORM_ACTION"
       (Some (VObj match data with
                   | Some d => {[ "action" := VStr action; "data" := d ]}
                   | None => {[ "action" := VStr action ]}
                   end))).

Definition checkFeatureAccess (feature : string)
  : Async Runtime (option value) :=
  sendMessage
    (mkMessage "CHECK_FEATURE_ACCESS"
       (Some (VObj {[ "feature" := VStr feature ]}))).

End Senders.

Import Senders.

(* ===================================================================== *)
(** ** src/background/service-worker.ts *)
(* ===================================================================== *)

Module ServiceWorker.

(** What the handlers reach besides the settings area: what
    [chrome.tabs.query({ active: true, currentWindow: true })] settles to,
    and the [favIconUrl] the browser reports for a tab.  In [Tab] an absent
    [url] or [title] is the empty string, which [tab.url || ''] does not
    tell apart. *)
Record Browser : Type := mkBrowser {
  active_tabs : result (list Tab);
  favIconUrl : Tab → option string;
}.

Definition GET_SETTINGS : Async SyncArea value :=
  try_catch
    (settings ← getUserSettings;
     mret (success_data (VObj settings)))
    (λ error, mret (failure (error_text_or "Failed to get settings" error))).

(** [updateUserSettings(message.payload)]: the payload is spread as it
    comes. *)
Definition UPDATE_SETTINGS (message : ExtensionMessage)
  : Async SyncArea value :=
  try_catch
    (updatedSettings ←
       updateUserSettings
         match payload message with
         | Some p => own_props p
         | None => ∅
         end;
     mret match updatedSettings with
          | Some settings => success_data (VObj settings)
          | None => failure "Failed to update settings"
          end)
    (λ error,
       mret (failure (error_text_or "Failed to update settings" error))).

(** The [data] of a tab whose identifier is [tabId]. *)
Definition tab_info (browser : Browser) (tab : Tab) (tabId : Z) : value :=
  VObj match favIconUrl browser tab with
       | Some icon =>
           {[ "id" := VNum tabId; "url" := VStr (tab_url tab);
              "title" := VStr (tab_title tab); "favIconUrl" := VStr icon ]}
       | None =>
           {[ "id" := VNum tabId; "url" := VStr (tab_url tab);
              "title" := VStr (tab_title tab) ]}
       end.

(** [tab && tab.id] *)
Definition usable_tab (tab : option Tab) : option (Tab * Z) :=
  match tab with
  | Some tab =>
      match truthy_id (tab_id tab) with
      | Some tabId => Some (tab, tabId)
      | None => None
      end
  | None => None
  end.

Definition GET_TAB_INFO (browser : Browser) (sender : MessageSender)
  : result value :=
  match usable_tab (sender_tab sender) with
  | Some (tab, tabId) => Ok (success_data (tab_info browser tab tabId))
  | None =>
      match active_tabs browser with
      | Ok tabs =>
          match usable_tab (head tabs) with
          | Some (activeTab, tabId) =>
              Ok (success_data (tab_info browser activeTab tabId))
          | None => Ok (failure "No active tab found")
          end
      | Thrown error =>
          Ok (failure (error_text_or "Failed to get tab info" error))
      end
  end.

Definition CONTENT_SCRIPT_READY : value := success_only.

Definition PERFORM_ACTION : value :=
  success_data (VObj {[ "message" := VStr "Action performed" ]}).

(** [settings.tier] as [hasFeatureAccess] uses it: only [tier === 'pro']
    is asked, so a tier that is not a string stands as the empty string. *)
Definition tier_of (settings : gmap string value) : string :=
  match settings !! "tier" with
  | Some (VStr tier) => tier
  | _ => ""
  end.

Definition CHECK_FEATURE_ACCESS (message : ExtensionMessage)
  : Async SyncArea value :=
  try_catch
    (settings ← getUserSettings;
     feature ← settled (member (payload message) "feature");
     key ← settled (to_string_opt feature);
     mret (success_data (VBool (hasFeatureAccess (tier_of settings) key))))
    (λ error,
       mret (failure (error_text_or "Failed to check feature access" error))).

(** An [async] handler hands the listener a promise, whatever its body
    does. *)
Definition promise_of (r : result value) : HandlerResult :=
  ReturnsPromise
    match r with
    | Ok v => Fulfills v
    | Thrown error => Rejects error
    end.

(** [messageHandlers], each handler run on the settings area and the
    browser as they are when the message arrives. *)
Definition messageHandlers (area : SyncArea) (browser : Browser)
  : gmap string MessageHandler :=
  {[ "GET_SETTINGS" := λ _ _, promise_of (GET_SETTINGS area).1;
     "UPDATE_SETTINGS" := λ message _,
       promise_of (UPDATE_SETTINGS message area).1;
     "GET_TAB_INFO" := λ _ sender, promise_of (GET_TAB_INFO browser sender);
     "CONTENT_SCRIPT_READY" := λ _ _, promise_of (Ok CONTENT_SCRIPT_READY);
     "PERFORM_ACTION" := λ _ _, promise_of (Ok PERFORM_ACTION);
     "CHECK_FEATURE_ACCESS" := λ message _,
       promise_of (CHECK_FEATURE_ACCESS message area).1 ]}.

End ServiceWorker.

Import ServiceWorker.

(* ===================================================================== *)
(** ** src/content/content-script.ts *)
(* ===================================================================== *)

Module ContentScript.

(** The page the script runs in: [window.location.href],
    [document.title], and what [extractPageData()] reads off the
    document. *)
Record Page : Type := mkPage {
  href : string;
  title : string;
  extracted : value;
}.

(** The two module variables. *)
Record ScriptState : Type := mkScript {
  isInitialized : bool;
  currentSettings : option value;
}.

Definition with_runtime {A} (m : Async Runtime A)
  : Async (ScriptState * Runtime) A :=
  λ '(st, rt), let '(r, rt') := m rt in (r, (st, rt')).

Definition set_currentSettings (settings : value)
  : Async (ScriptState * Runtime) unit :=
  λ '(st, rt),
    (Ok (),
     ({| isInitialized := isInitialized st;
         currentSettings := Some settings |}, rt)).

Definition set_isInitialized : Async (ScriptState * Runtime) unit :=
  λ '(st, rt),
    (Ok (),
     ({| isInitialized := true; currentSettings := currentSettings st |},
      rt)).

(** [if (settingsResponse.success && settingsResponse.data)
       currentSettings = settingsResponse.data] *)
Definition refresh_settings (settingsResponse : option value)
  : Async (ScriptState * Runtime) unit :=
  ok ← settled (member settingsResponse "success");
  if truthy_opt ok then
    data ← settled (member settingsResponse "data");
    match data with
    | Some settings =>
        if truthy settings then set_currentSettings settings else mret ()
    | None => mret ()
    end
  else mret ().

(** [setupContentScript()] has an empty body, so the test of
    [currentSettings.enabled] before it leaves no trace. *)
Definition initialize (page : Page) : Async (ScriptState * Runtime) unit :=
  λ '(st, rt),
    if isInitialized st then (Ok (), (st, rt))
    else
      try_catch
        (with_runtime (notifyContentScriptReady (href page) (title page))
           ≫= λ _,
         settingsResponse ← with_runtime requestSettings;
         refresh_settings settingsResponse ≫= λ _,
         set_isInitialized)
        (λ _error, mret ())
        (st, rt).

Definition handleAction (page : Page) (payload : option value)
  : result value :=
  match member payload "action" with
  | Thrown error => Thrown error
  | Ok action =>
      let unknown :=
        match to_string_opt action with
        | Ok text => Ok (failure ("Unknown action: " +:+ text))
        | Thrown error => Thrown error
        end in
      match action with
      | Some (VStr name) =>
          if String.eqb name "highlightElements" then
            Ok (success_data (VObj {[ "highlighted" := VBool true ]}))
          else if String.eqb name "extractData" then
            Ok (success_data (extracted page))
          else unknown
      | _ => unknown
      end
  end.

Definition handleMessage (page : Page) (message : ExtensionMessage)
  : Async (ScriptState * Runtime) value :=
  if String.eqb (msg_type message) "UPDATE_SETTINGS" then
    settingsResponse ← with_runtime requestSettings;
    refresh_settings settingsResponse ≫= λ _,
    mret success_only
  else if String.eqb (msg_type message) "PERFORM_ACTION" then
    settled (handleAction page (payload message))
  else
    mret (failure ("Unknown message type: " +:+ msg_type message)).

(** The listener the script registers: it always returns [true], and
    replies when [handleMessage] has settled. *)
Definition content_listener {C} (page : Page) (message : ExtensionMessage)
    (sendResponse : value → C → C) (w : ScriptState * Runtime)
  : ListenerRun C * (ScriptState * Runtime) :=
  let '(r, w') := handleMessage page message w in
  (mkRun (Ok true) id
     match r with
     | Ok response => sendResponse response
     | Thrown error => sendResponse (failure (error_text error))
     end,
   w').

End ContentScript.

Import ContentScript.

(* ===================================================================== *)
(** ** Vocabulary of the further statements *)
(* ===================================================================== *)

Module Outcomes.

(** The area after a write of [v] under [key] went through. *)
Definition area_put (key : string) (v : value) (area : SyncArea) : SyncArea :=
  {| items := <[ key := v ]> (items area);
     get_rejects := get_rejects area;
     set_rejects := set_rejects area |}.

(** The local area after a write of [v] under [key] went through. *)
Definition local_put (key : string) (v : value) (area : LocalArea)
  : LocalArea :=
  {| local_items := <[ key := v ]> (local_items area);
     local_get_rejects := local_get_rejects area;
     local_set_rejects := local_set_rejects area |}.

(** [v ?? d] for a value that is present. *)
Definition or_default (v d : value) : value :=
  match v with
  | VNull => d
  | _ => v
  end.

(** The six tags of [ExtensionMessage]. *)
Definition message_types : list string :=
  [ "GET_SETTINGS"; "UPDATE_SETTINGS"; "GET_TAB_INFO";
    "CONTENT_SCRIPT_READY"; "PERFORM_ACTION"; "CHECK_FEATURE_ACCESS" ].

(** A runtime that has sent nothing yet. *)
Definition runtime_with
    (answer : ExtensionMessage → result (option value)) : Runtime :=
  {| answer := answer; outbox := [] |}.

(** The runtime after [messages] were sent. *)
Definition runtime_after (rt : Runtime) (messages : list ExtensionMessage)
  : Runtime :=
  {| answer := answer rt; outbox := outbox rt ++ messages |}.

(** What [sendMessage] resolves to. *)
Definition reply_of (rt : Runtime) (message : ExtensionMessage)
  : option value :=
  match answer rt message with
  | Ok response => response
  | Thrown error => Some (failure (error_text error))
  end.

(** The own properties of a response that may be [undefined]. *)
Definition props_of (response : option value) : gmap string value :=
  match response with
  | Some v => own_props v
  | None => ∅
  end.

(** [response.success && response.data], when it is truthy. *)
Definition usable_data (response : option value) : option value :=
  match props_of response !! "success", props_of response !! "data" with
  | Some ok, Some data =>
      if truthy ok && truthy data then Some data else None
  | _, _ => None
  end.

(** The script's state after a settings response was looked at: the
    response's data become the current settings when it is usable. *)
Definition refreshed (response : option value) (st : ScriptState)
  : ScriptState :=
  match usable_data response with
  | Some settings =>
      {| isInitialized := isInitialized st;
         currentSettings := Some settings |}
  | None => st
  end.

(** The two messages [initialize] sends. *)
Definition ready_message (page : Page) : ExtensionMessage :=
  mkMessage "CONTENT_SCRIPT_READY"
    (Some (VObj {[ "url" := VStr (href page);
                   "title" := VStr (title page) ]})).

Definition settings_request : ExtensionMessage :=
  mkMessage "GET_SETTINGS" None.

(** One call of [updateUserSettings] between its two awaited steps:
    before the read of the settings has settled, before the write of the
    merged record has settled, and returned. *)
Inductive UpdateCall : Type :=
  | AwaitingRead (updates : gmap string value)
  | AwaitingWrite (updates currentSettings : gmap string value)
  | Returned (outcome : option (gmap string value)).

(** The awaited operation of a call settles and the call runs on to its
    next [await], or to its [return]. *)
Definition update_step (call : UpdateCall) (area : SyncArea)
  : UpdateCall * SyncArea :=
  match call with
  | AwaitingRead updates =>
      match getUserSettings area with
      | (Ok currentSettings, area') =>
          (AwaitingWrite updates currentSettings, area')
      | (Thrown _, area') => (Returned None, area')
      end
  | AwaitingWrite updates currentSettings =>
      let newSettings := spread currentSettings updates in
      match saveUserSettings newSettings area with
      | (Ok true, area') => (Returned (Some newSettings), area')
      | (Ok false, area') | (Thrown _, area') => (Returned None, area')
      end
  | Returned outcome => (Returned outcome, area)
  end.

(** Two calls in flight, stepped in the order of [schedule]: [true] lets
    the first call take its next step, [false] the second. *)
Fixpoint run_calls (schedule : list bool) (calls : UpdateCall * UpdateCall)
    (area : SyncArea) : UpdateCall * UpdateCall * SyncArea :=
  match schedule with
  | [] => (calls, area)
  | first :: schedule' =>
      if first then
        let '(call, area') := update_step calls.1 area in
        run_calls schedule' (call, calls.2) area'
      else
        let '(call, area') := update_step calls.2 area in
        run_calls schedule' (calls.1, call) area'
  end.

End Outcomes.

Import Outcomes.

(* ===================================================================== *)
(** ** Feature gate *)
(* ===================================================================== *)

Section FeatureGate.

Lemma FEATURE_ACCESS_total (f : FeatureKey) :
  is_Some (FEATURE_ACCESS !! feature_name f).
Proof. destruct f; vm_compute; eauto. Qed.

Lemma hasFeatureAccess_own tier feature requiredTier :
  FEATURE_ACCESS !! feature = Some requiredTier →
  hasFeatureAccess tier feature =
    if String.eqb requiredTier "free" then true else String.eqb tier "pro".
Proof.
  intros Hreq. unfold hasFeatureAccess, get_property. by rewrite Hreq.
Qed.

Example free_basic : hasFeatureAccess "free" "basic_feature" = true.
Proof. reflexivity. Qed.

Example free_analytics : hasFeatureAccess "free" "advanced_analytics" = false.
Proof. reflexivity. Qed.

Example pro_analytics : hasFeatureAccess "pro" "advanced_analytics" = true.
Proof. reflexivity. Qed.

(** C2.  On the closed set of five feature keys the gate is decided by
    the static table alone: every key has a required tier there, the gate
    returns [true] when that tier is ['free'] and otherwise returns
    whether the caller's tier is ['pro'].  Hence a pro caller has access
    to every key, and a free caller exactly to the keys whose required
    tier is ['free']. *)
Theorem hasFeatureAccess_closed_set (t : SubscriptionTier) (f : FeatureKey) :
  ∃ requiredTier,
    FEATURE_ACCESS !! feature_name f = Some requiredTier
    ∧ hasFeatureAccess (tier_name t) (feature_name f) =
        (if String.eqb requiredTier "free" then true
         else String.eqb (tier_name t) "pro")
    ∧ hasFeatureAccess (tier_name pro) (feature_name f) = true
    ∧ hasFeatureAccess (tier_name free) (feature_name f) =
        String.eqb requiredTier "free".
Proof.
  destruct (FEATURE_ACCESS_total f) as [req Hreq].
  exists req. split; [done|].
  rewrite !(hasFeatureAccess_own _ _ _ Hreq).
  split; [done|]. simpl. by destruct (String.eqb req "free").
Qed.

(** C8.  For a feature key that is not in the static table the lookup
    does not yield ['free'], so the gate answers whether the caller's
    tier is ['pro']: a pro caller is granted the unknown feature and a
    free caller is denied it. *)
Theorem hasFeatureAccess_unknown_key (tier feature : string) :
  FEATURE_ACCESS !! feature = None →
  hasFeatureAccess tier feature = String.eqb tier "pro"
  ∧ hasFeatureAccess "pro" feature = true
  ∧ hasFeatureAccess "free" feature = false.
Proof.
  intros Hnone. unfold hasFeatureAccess, get_property. rewrite Hnone.
  by destruct (bool_decide _).
Qed.

Lemma hasFeatureAccess_unknown_key_witness :
  FEATURE_ACCESS !! "beta_feature" = None
  ∧ hasFeatureAccess "pro" "beta_feature" = String.eqb "pro" "pro"
  ∧ hasFeatureAccess "pro" "beta_feature" = true
  ∧ hasFeatureAccess "free" "beta_feature" = false.
Proof.
  split; [reflexivity|].
  apply (hasFeatureAccess_unknown_key "pro" "beta_feature"). reflexivity.
Defined.

End FeatureGate.

(* ===================================================================== *)
(** ** Settings store *)
(* ===================================================================== *)

Section SettingsStore.

Implicit Types (area : SyncArea) (P X S U : gmap string value).

(** *** Equations of the helpers *)

Lemma getStorageValue_eq key d area :
  getStorageValue key d area =
    (Ok match get_rejects area with
        | Some _ => d
        | None => nullish_or (items area !! STORAGE_KEYS key) d
        end,
     area).
Proof.
  unfold getStorageValue, try_catch, chrome_storage_sync_get, mbind,
    Async_bind, mret, Async_ret.
  destruct (get_rejects area); [done|].
  destruct (items area !! STORAGE_KEYS key) as [v|].
  - by rewrite lookup_singleton_eq.
  - by rewrite lookup_empty.
Qed.

Lemma getUserSettings_eq area :
  getUserSettings area =
    (Ok (own_props (settings_read area) ∪ DEFAULT_USER_SETTINGS), area).
Proof.
  unfold getUserSettings, mbind, Async_bind. by rewrite getStorageValue_eq.
Qed.

Lemma saveUserSettings_eq X area :
  saveUserSettings X area =
    match set_rejects area with
    | Some _ => (Ok false, area)
    | None => (Ok true, area_saved X area)
    end.
Proof.
  unfold saveUserSettings, setStorageValue, try_catch,
    chrome_storage_sync_set, mbind, Async_bind, mret, Async_ret, area_saved.
  destruct (set_rejects area); [done|].
  by rewrite <- insert_union_singleton_l.
Qed.

Lemma updateUserSettings_eq U area :
  updateUserSettings U area =
    let newSettings :=
      U ∪ (own_props (settings_read area) ∪ DEFAULT_USER_SETTINGS) in
    match set_rejects area with
    | Some _ => (Ok None, area)
    | None => (Ok (Some newSettings), area_saved newSettings area)
    end.
Proof.
  unfold updateUserSettings, try_catch, mbind, Async_bind.
  rewrite getUserSettings_eq, saveUserSettings_eq. unfold spread.
  by destruct (set_rejects area).
Qed.

Lemma settings_read_saved X area :
  get_rejects area = None → settings_read (area_saved X area) = VObj X.
Proof.
  intros Hget. unfold settings_read, area_saved. simpl.
  by rewrite Hget, lookup_insert_eq.
Qed.

(** *** Field completeness *)

Lemma has_fields_obj fields v :
  has_fields (VObj fields) v = true ↔
  ∀ k s, fields !! k = Some s →
         ∃ v', own_props v !! k = Some v' ∧ has_fields s v' = true.
Proof.
  simpl.
  apply (map_fold_weak_ind
           (λ acc (m : gmap string value),
              acc = true ↔
              ∀ k s, m !! k = Some s →
                     ∃ v', own_props v !! k = Some v'
                           ∧ has_fields s v' = true)).
  - split; [|done]. intros _ k s Hk. by rewrite lookup_empty in Hk.
  - intros i x m acc Hfresh IH. split.
    + intros Hacc k s Hk.
      destruct (own_props v !! i) as [vi|] eqn:Hvi; [|done].
      apply andb_true_iff in Hacc as [Hx Hrest].
      destruct (decide (i = k)) as [->|Hne].
      * rewrite lookup_insert_eq in Hk. injection Hk as <-. eauto.
      * rewrite lookup_insert_ne in Hk by done. by apply IH.
    + intros Hall.
      destruct (Hall i x) as (vi & -> & Hx); [by rewrite lookup_insert_eq|].
      rewrite Hx. simpl. apply IH. intros k s Hk.
      apply Hall. rewrite lookup_insert_ne; [done|]. congruence.
Qed.

Lemma default_fields_self k s :
  DEFAULT_USER_SETTINGS !! k = Some s → has_fields s s = true.
Proof.
  revert k s.
  change (map_Forall (λ _ s, has_fields s s = true) DEFAULT_USER_SETTINGS).
  apply (bool_decide_unpack _). by vm_compute.
Qed.

Lemma has_fields_top_level X k :
  has_fields (VObj DEFAULT_USER_SETTINGS) (VObj X) = true →
  X !! k = None → DEFAULT_USER_SETTINGS !! k = None.
Proof.
  intros Hall Hk.
  destruct (DEFAULT_USER_SETTINGS !! k) as [s|] eqn:Hs; [|done].
  destruct (proj1 (has_fields_obj _ _) Hall k s Hs) as (v' & Hv' & _). simpl in Hv'. congruence.
Qed.

Lemma union_defaults_complete X :
  has_fields (VObj DEFAULT_USER_SETTINGS) (VObj X) = true →
  X ∪ DEFAULT_USER_SETTINGS = X.
Proof.
  intros Hall. apply map_eq. intros k.
  destruct (X !! k) as [v|] eqn:Hk.
  - by apply lookup_union_Some_l.
  - rewrite lookup_union_r by done.
    by apply (has_fields_top_level X).
Qed.

Lemma nested_complete_check P :
  has_fields (VObj (DEFAULT_USER_SETTINGS ∩ P)) (VObj P) = true →
  nested_complete P.
Proof.
  intros Hall k s v Hs Hv.
  destruct (proj1 (has_fields_obj _ _) Hall k s) as (v' & Hv' & Hok).
  - apply lookup_intersection_Some. eauto.
  - simpl in Hv'. congruence.
Qed.

Lemma merged_has_fields P :
  nested_complete P →
  has_fields (VObj DEFAULT_USER_SETTINGS)
             (VObj (P ∪ DEFAULT_USER_SETTINGS)) = true.
Proof.
  intros HP. apply has_fields_obj. intros k s Hs. simpl.
  destruct (P !! k) as [v|] eqn:Hv.
  - exists v. split; [by apply lookup_union_Some_l|]. by apply (HP k).
  - exists s. split; [by rewrite lookup_union_r|].
    by apply (default_fields_self k).
Qed.

(** *** Reading *)

(** The record [{ notifications: { enabled: true } }] written to the
    slot comes back with the top-level defaults filled in, but with its
    own [notifications], which has no [sound]. *)
Lemma getUserSettings_nested_sound_missing :
  let P : gmap string value :=
    {[ "notifications" := VObj {[ "enabled" := VBool true ]} ]} in
  let area := area_with {[ STORAGE_KEYS USER_SETTINGS := VObj P ]} in
  items area !! STORAGE_KEYS USER_SETTINGS = Some (VObj P)
  ∧ ∃ r, getUserSettings area = (Ok r, area)
         ∧ r !! "notifications" = Some (VObj {[ "enabled" := VBool true ]})
         ∧ has_fields (VObj DEFAULT_USER_SETTINGS) (VObj r) = false.
Proof.
  split; [reflexivity|]. eexists. split; [|split].
  - apply getUserSettings_eq.
  - by vm_compute.
  - by vm_compute.
Qed.

(** C1, as amended.  Let [P] be a partial settings object in the settings
    slot whose fields are complete below the top level (the empty object
    is one; an object whose [notifications] lacks [sound] is not).  Then
    [getUserSettings] returns, without throwing and whether or not the
    read is rejected, a record that has every field of the default
    schema, [notifications.sound] included. *)
Theorem getUserSettings_merge_complete P area :
  items area !! STORAGE_KEYS USER_SETTINGS = Some (VObj P) →
  nested_complete P →
  ∃ r, getUserSettings area = (Ok r, area)
       ∧ has_fields (VObj DEFAULT_USER_SETTINGS) (VObj r) = true
       ∧ ∃ notifications,
           r !! "notifications" = Some notifications
           ∧ is_Some (own_props notifications !! "sound").
Proof.
  intros Hslot HP. eexists. split; [apply getUserSettings_eq|].
  assert (has_fields (VObj DEFAULT_USER_SETTINGS)
            (VObj (own_props (settings_read area) ∪ DEFAULT_USER_SETTINGS))
          = true) as Hall.
  { unfold settings_read. rewrite Hslot.
    destruct (get_rejects area); simpl.
    - apply merged_has_fields. intros k s v Hs Hv.
      rewrite Hs in Hv. injection Hv as <-.
      by apply (default_fields_self k).
    - by apply merged_has_fields. }
  split; [done|].
  destruct (proj1 (has_fields_obj _ _) Hall "notifications"
              (VObj {[ "enabled" := VBool true; "sound" := VBool false ]}))
    as (n & Hn & Hnested); [reflexivity|].
  exists n. split; [done|].
  destruct (proj1 (has_fields_obj _ _) Hnested "sound" (VBool false))
    as (snd & Hsnd & _); [reflexivity|]. eauto.
Qed.

Lemma getUserSettings_merge_complete_witness :
  let P : gmap string value := {[ "tier" := VStr "pro" ]} in
  let area := area_with {[ STORAGE_KEYS USER_SETTINGS := VObj P ]} in
  ∃ r, getUserSettings area = (Ok r, area)
       ∧ has_fields (VObj DEFAULT_USER_SETTINGS) (VObj r) = true
       ∧ ∃ notifications,
           r !! "notifications" = Some notifications
           ∧ is_Some (own_props notifications !! "sound").
Proof.
  apply (getUserSettings_merge_complete
           {[ "tier" := VStr "pro" ]}
           (area_with
              {[ STORAGE_KEYS USER_SETTINGS :=
                   VObj {[ "tier" := VStr "pro" ]} ]})).
  - reflexivity.
  - apply nested_complete_check. vm_compute. reflexivity.
Defined.

Example getUserSettings_empty_object :
  getUserSettings (area_with {[ STORAGE_KEYS USER_SETTINGS := VObj ∅ ]}) =
    (Ok DEFAULT_USER_SETTINGS,
     area_with {[ STORAGE_KEYS USER_SETTINGS := VObj ∅ ]}).
Proof. rewrite getUserSettings_eq. by vm_compute. Qed.

(** A stored string is spread character by character, under its indices. *)
Example getUserSettings_stored_string :
  ∃ r,
    getUserSettings (area_with {[ STORAGE_KEYS USER_SETTINGS := VStr "ab" ]})
      = (Ok r, area_with {[ STORAGE_KEYS USER_SETTINGS := VStr "ab" ]})
    ∧ r !! "0" = Some (VStr "a")
    ∧ r !! "1" = Some (VStr "b")
    ∧ r !! "tier" = Some (VStr "free").
Proof.
  eexists. split; [apply getUserSettings_eq|]. by vm_compute.
Qed.

Example getUserSettings_nothing_stored :
  getUserSettings (area_with ∅) = (Ok DEFAULT_USER_SETTINGS, area_with ∅).
Proof. rewrite getUserSettings_eq. by vm_compute. Qed.

(** *** Writing, then reading *)

Lemma save_then_get X area :
  set_rejects area = None →
  get_rejects area = None →
  saveUserSettings X area = (Ok true, area_saved X area)
  ∧ getUserSettings (area_saved X area) =
      (Ok (X ∪ DEFAULT_USER_SETTINGS), area_saved X area).
Proof.
  intros Hset Hget. split.
  - by rewrite saveUserSettings_eq, Hset.
  - by rewrite getUserSettings_eq, settings_read_saved.
Qed.

(** C7.  On a storage area that accepts the write and the read, saving a
    record [X] that has every field of the default schema and then
    reading the settings returns [X] itself (records are maps, so
    equality is deep equality). *)
Theorem save_then_get_roundtrip X area :
  has_fields (VObj DEFAULT_USER_SETTINGS) (VObj X) = true →
  set_rejects area = None →
  get_rejects area = None →
  ∃ area',
    saveUserSettings X area = (Ok true, area')
    ∧ getUserSettings area' = (Ok X, area').
Proof.
  intros HX Hset Hget. exists (area_saved X area).
  destruct (save_then_get X area Hset Hget) as [Hsave Hread].
  split; [exact Hsave|].
  by rewrite Hread, union_defaults_complete.
Qed.

Lemma save_then_get_roundtrip_witness :
  let X := <[ "tier" := VStr "pro" ]> DEFAULT_USER_SETTINGS in
  ∃ area',
    saveUserSettings X (area_with ∅) = (Ok true, area')
    ∧ getUserSettings area' = (Ok X, area').
Proof.
  apply (save_then_get_roundtrip
           (<[ "tier" := VStr "pro" ]> DEFAULT_USER_SETTINGS) (area_with ∅)).
  - vm_compute. reflexivity.
  - reflexivity.
  - reflexivity.
Defined.

Lemma resetUserSettings_then_get area :
  set_rejects area = None →
  get_rejects area = None →
  ∃ area',
    resetUserSettings area = (Ok true, area')
    ∧ getUserSettings area' = (Ok DEFAULT_USER_SETTINGS, area').
Proof.
  intros Hset Hget. exists (area_saved DEFAULT_USER_SETTINGS area).
  destruct (save_then_get DEFAULT_USER_SETTINGS area Hset Hget)
    as [Hsave Hread].
  split; [exact Hsave|]. rewrite Hread.
  assert (DEFAULT_USER_SETTINGS ∪ DEFAULT_USER_SETTINGS
          = DEFAULT_USER_SETTINGS) as -> by apply (idemp_L _).
  reflexivity.
Qed.

(** *** Updating *)

(** [updateUserSettings] is the read, the top-level merge and the save in
    sequence; it never throws, and its result is [null] exactly when the
    write is rejected. *)
Lemma updateUserSettings_steps U area :
  ∃ current area1 success area2,
    getUserSettings area = (Ok current, area1)
    ∧ saveUserSettings (U ∪ current) area1 = (Ok success, area2)
    ∧ updateUserSettings U area =
        (Ok (if success : bool then Some (U ∪ current) else None), area2).
Proof.
  exists (own_props (settings_read area) ∪ DEFAULT_USER_SETTINGS), area.
  rewrite getUserSettings_eq, saveUserSettings_eq, updateUserSettings_eq.
  destruct (set_rejects area); simpl; eauto.
Qed.

(** With a working area that holds [S], an update of the theme alone
    returns a record that agrees with the stored one merged onto the
    defaults at every other top-level key; in particular its [tier] is
    the stored one. *)
Lemma updateUserSettings_theme_frame S theme area :
  items area !! STORAGE_KEYS USER_SETTINGS = Some (VObj S) →
  get_rejects area = None →
  set_rejects area = None →
  ∃ r area',
    updateUserSettings (theme_update theme) area = (Ok (Some r), area')
    ∧ items area' !! STORAGE_KEYS USER_SETTINGS = Some (VObj r)
    ∧ r !! "theme" = Some theme
    ∧ (∀ k, k ≠ "theme" → r !! k = (S ∪ DEFAULT_USER_SETTINGS) !! k)
    ∧ (is_Some (S !! "tier") → r !! "tier" = S !! "tier").
Proof.
  intros Hslot Hget Hset. rewrite updateUserSettings_eq, Hset. simpl.
  unfold settings_read. rewrite Hget, Hslot. simpl.
  eexists _, _. split; [done|]. unfold theme_update. split; [|split; [|split]].
  - simpl. by rewrite lookup_insert_eq.
  - apply lookup_union_Some_l. by rewrite lookup_singleton_eq.
  - intros k Hk. rewrite lookup_union_r; [done|].
    by rewrite lookup_singleton_ne.
  - intros Htier. rewrite lookup_union_r by done.
    by rewrite lookup_union_l'.
Qed.

(** C6, at the input on which the code departs from it.  The area holds a
    record with [tier: 'pro'], its reads are rejected and its writes are
    accepted; the update is [{ theme: 'dark' }].  The code returns a
    record, not [null]; the record is the defaults with the new theme, so
    its [tier] is ['free'] and not the stored ['pro']; and that record
    has replaced the stored one. *)
Theorem updateUserSettings_read_rejected :
  let S := <[ "tier" := VStr "pro" ]> DEFAULT_USER_SETTINGS in
  let area :=
    {| items := {[ STORAGE_KEYS USER_SETTINGS := VObj S ]};
       get_rejects := Some (ErrorObj "Storage error");
       set_rejects := None |} in
  let r := <[ "theme" := VStr "dark" ]> DEFAULT_USER_SETTINGS in
  updateUserSettings (theme_update (VStr "dark")) area =
    (Ok (Some r), area_saved r area)
  ∧ r !! "tier" = Some (VStr "free")
  ∧ S !! "tier" = Some (VStr "pro").
Proof.
  split; [|split]; [|by vm_compute..].
  rewrite updateUserSettings_eq. by vm_compute.
Qed.

(** C10.  [updateUserSettings] never throws, and it returns [null]
    exactly when the write is rejected.  When the read is rejected and
    the write is accepted, it returns the update merged onto the
    defaults and stores that record in the settings slot, whatever the
    slot held before. *)
Theorem updateUserSettings_null_only_on_save_failure U area :
  (∃ outcome area',
     updateUserSettings U area = (Ok outcome, area')
     ∧ (outcome = None ↔ is_Some (set_rejects area)))
  ∧ (is_Some (get_rejects area) → set_rejects area = None →
     ∃ area',
       updateUserSettings U area =
         (Ok (Some (U ∪ DEFAULT_USER_SETTINGS)), area')
       ∧ items area' !! STORAGE_KEYS USER_SETTINGS =
           Some (VObj (U ∪ DEFAULT_USER_SETTINGS))).
Proof.
  rewrite updateUserSettings_eq. simpl. split.
  - destruct (set_rejects area) as [e|] eqn:Hset.
    + eexists _, _. split; [done|]. by eauto.
    + eexists _, _. split; [done|]. split; [done|]. by intros [? ?].
  - intros [e He] ->. unfold settings_read. rewrite He. simpl.
    assert (DEFAULT_USER_SETTINGS ∪ DEFAULT_USER_SETTINGS
            = DEFAULT_USER_SETTINGS) as -> by apply (idemp_L _).
    eexists. split; [done|]. simpl. by rewrite lookup_insert_eq.
Qed.

Lemma updateUserSettings_null_only_on_save_failure_witness :
  let S := <[ "tier" := VStr "pro" ]> DEFAULT_USER_SETTINGS in
  let area :=
    {| items := {[ STORAGE_KEYS USER_SETTINGS := VObj S ]};
       get_rejects := Some (ErrorObj "Storage error");
       set_rejects := None |} in
  let U := theme_update (VStr "dark") in
  ∃ area',
    updateUserSettings U area =
      (Ok (Some (U ∪ DEFAULT_USER_SETTINGS)), area')
    ∧ items area' !! STORAGE_KEYS USER_SETTINGS =
        Some (VObj (U ∪ DEFAULT_USER_SETTINGS)).
Proof.
  apply (updateUserSettings_null_only_on_save_failure
           (theme_update (VStr "dark"))
           {| items :=
                {[ STORAGE_KEYS USER_SETTINGS :=
                     VObj (<[ "tier" := VStr "pro" ]> DEFAULT_USER_SETTINGS) ]};
              get_rejects := Some (ErrorObj "Storage error");
              set_rejects := None |}).
  - simpl. eexists. reflexivity.
  - reflexivity.
Defined.

End SettingsStore.

(* ===================================================================== *)
(** ** Broadcast *)
(* ===================================================================== *)

Section Broadcast.

Implicit Types (api : Tabs) (message : ExtensionMessage)
  (tabs : list Tab) (results : gmap Z value).

Lemma sendMessageToTab_eq tabId message api :
  sendMessageToTab tabId message api =
    (Ok (peer_reply api message tabId),
     api_after api [(tabId, message)]).
Proof.
  unfold sendMessageToTab, try_catch, chrome_tabs_sendMessage, peer_reply.
  by destruct (respond api tabId message).
Qed.

Lemma api_after_nil api : api_after api [] = api.
Proof. destruct api. unfold api_after. simpl. by rewrite app_nil_r. Qed.

Lemma api_after_app api l1 l2 :
  api_after (api_after api l1) l2 = api_after api (l1 ++ l2).
Proof. unfold api_after. simpl. by rewrite app_assoc. Qed.

Lemma addressable_cons tab tabs :
  addressable (tab :: tabs) =
    match truthy_id (tab_id tab) with
    | Some tabId => tabId :: addressable tabs
    | None => addressable tabs
    end.
Proof. reflexivity. Qed.

(** The loop over the enumerated tabs: one send and one entry per
    addressable tab, in enumeration order. *)
Lemma for_each_tab_eq message tabs results api :
  for_each
    (λ tab,
       match truthy_id (tab_id tab) with
       | Some tabId =>
           response ← with_api (sendMessageToTab tabId message);
           results_set tabId response
       | None => mret ()
       end)
    tabs (results, api) =
    (Ok (),
     (replies api message (addressable tabs) results,
      api_after api ((λ tabId, (tabId, message)) <$> addressable tabs))).
Proof.
  revert results api. induction tabs as [|tab tabs IH]; intros results api.
  - simpl. by rewrite api_after_nil.
  - rewrite addressable_cons. simpl.
    unfold mbind at 1. unfold Async_bind at 1.
    destruct (truthy_id (tab_id tab)) as [tabId|].
    + unfold mbind at 1. unfold Async_bind at 1.
      unfold with_api at 1. rewrite sendMessageToTab_eq.
      unfold results_set at 1. rewrite IH.
      rewrite api_after_app. reflexivity.
    + unfold mret at 1. unfold Async_ret at 1. by rewrite IH.
Qed.

Lemma broadcastToAllTabs_enumerated message api tabs :
  query api = Ok tabs →
  broadcastToAllTabs message api =
    (Ok (replies api message (addressable tabs) ∅),
     api_after api ((λ tabId, (tabId, message)) <$> addressable tabs)).
Proof.
  intros Hq. unfold broadcastToAllTabs, try_catch.
  unfold mbind at 1. unfold Async_bind at 1.
  unfold with_api at 1. unfold chrome_tabs_query. rewrite Hq.
  by rewrite for_each_tab_eq.
Qed.

Lemma broadcastToAllTabs_query_rejected message api error :
  query api = Thrown error →
  broadcastToAllTabs message api = (Ok ∅, api).
Proof.
  intros Hq. unfold broadcastToAllTabs, try_catch.
  unfold mbind at 1. unfold Async_bind at 1.
  unfold with_api at 1. unfold chrome_tabs_query. by rewrite Hq.
Qed.

Lemma lookup_replies api message ids results tabId :
  replies api message ids results !! tabId =
    if decide (tabId ∈ ids) then Some (peer_reply api message tabId)
    else results !! tabId.
Proof.
  unfold replies. revert results.
  induction ids as [|i ids IH]; intros results.
  - rewrite decide_False; [done|]. apply not_elem_of_nil.
  - change (foldl (λ acc t, <[ t := peer_reply api message t ]> acc)
              (<[ i := peer_reply api message i ]> results) ids !! tabId
            = if decide (tabId ∈ i :: ids)
              then Some (peer_reply api message tabId)
              else results !! tabId).
    rewrite IH. destruct (decide (tabId ∈ ids)) as [Hin|Hnin].
    + rewrite decide_True; [done|]. by apply elem_of_cons; right.
    + destruct (decide (tabId = i)) as [->|Hne].
      * rewrite lookup_insert_eq, decide_True; [done|].
        by apply elem_of_cons; left.
      * rewrite lookup_insert_ne by done.
        rewrite decide_False; [done|].
        intros [?|?]%elem_of_cons; done.
Qed.

Lemma dom_replies api message ids :
  dom (replies api message ids ∅) = list_to_set ids.
Proof.
  apply set_eq. intros tabId.
  rewrite elem_of_dom, lookup_replies, elem_of_list_to_set.
  case_decide as Hin; split; try done.
  rewrite lookup_empty. by intros [? ?].
Qed.

Lemma elem_of_addressable tabs tabId :
  tabId ∈ addressable tabs ↔
  tabId ≠ 0%Z ∧ ∃ tab, tab ∈ tabs ∧ tab_id tab = Some tabId.
Proof.
  unfold addressable. rewrite list_elem_of_omap. split.
  - intros (tab & Hin & Htruthy). unfold truthy_id in Htruthy.
    destruct (tab_id tab) as [n|] eqn:Hid; [|done].
    destruct (n =? 0)%Z eqn:Hz; [done|]. injection Htruthy as ->.
    apply Z.eqb_neq in Hz. eauto.
  - intros (Hnz & tab & Hin & Hid). exists tab. split; [done|].
    unfold truthy_id. rewrite Hid.
    apply Z.eqb_neq in Hnz. by rewrite Hnz.
Qed.

Lemma success_of_failure text : success_of (failure text) = Some false.
Proof. reflexivity. Qed.

Lemma size_replies api message ids :
  NoDup ids → size (replies api message ids ∅) = length ids.
Proof.
  intros Hnd. rewrite <- size_dom, dom_replies.
  by apply size_list_to_set.
Qed.

(** Three tabs are enumerated and the second has no identifier: the
    mapping that comes back has two entries, not three. *)
Lemma broadcast_no_entry_for_tab_without_id :
  let tabs :=
    [ mkTab (Some 1%Z) "https://a.example/" "A";
      mkTab None "" "";
      mkTab (Some 3%Z) "https://c.example/" "C" ] in
  let api :=
    {| query := Ok tabs;
       respond := λ _ _, Ok (VObj {[ "success" := VBool true ]});
       sent := [] |} in
  ∃ results api',
    broadcastToAllTabs (mkMessage "GET_SETTINGS" None) api
      = (Ok results, api')
    ∧ length tabs = 3
    ∧ size results = 2
    ∧ length (sent api') = 2.
Proof.
  eexists _, _. split; [by apply broadcastToAllTabs_enumerated|].
  split; [done|]. split; [|done].
  apply (size_replies _ _ [1%Z; 3%Z]).
  apply NoDup_cons. split; [|apply NoDup_singleton].
  by intros ?%list_elem_of_singleton.
Qed.

(** C5, as amended.  When the enumeration succeeds, [broadcastToAllTabs]
    returns (it does not throw) a mapping with exactly one entry per
    identifier of an enumerated tab that has a truthy identifier.  The
    entry of a tab whose send settles is its response; the entry of a
    tab whose send is rejected is [{ success: false, error }], and it
    does not keep the other entries from being recorded.  With three
    such tabs of distinct identifiers, the second unreachable and the
    other two answering [success: true], the mapping has three entries,
    two with [success: true] and one with [success: false]. *)
Theorem broadcast_partial_failure api message tabs :
  query api = Ok tabs →
  ∃ results api',
    broadcastToAllTabs message api = (Ok results, api')
    ∧ dom results = list_to_set (addressable tabs)
    ∧ (∀ tabId response,
         tabId ∈ addressable tabs →
         respond api tabId message = Ok response →
         results !! tabId = Some response)
    ∧ (∀ tabId error,
         tabId ∈ addressable tabs →
         respond api tabId message = Thrown error →
         results !! tabId = Some (failure (error_text error)))
    ∧ (∀ a b c ra rc error,
         addressable tabs = [a; b; c] → NoDup [a; b; c] →
         respond api a message = Ok ra → success_of ra = Some true →
         respond api b message = Thrown error →
         respond api c message = Ok rc → success_of rc = Some true →
         size results = 3
         ∧ results !! a = Some ra
         ∧ results !! c = Some rc
         ∧ ∃ rb, results !! b = Some rb ∧ success_of rb = Some false).
Proof.
  intros Hq. eexists _, _.
  split; [by apply broadcastToAllTabs_enumerated|].
  split; [apply dom_replies|].
  assert (∀ tabId, tabId ∈ addressable tabs →
            replies api message (addressable tabs) ∅ !! tabId
            = Some (peer_reply api message tabId)) as Hentry.
  { intros tabId Hin. by rewrite lookup_replies, decide_True. }
  split; [|split].
  - intros tabId response Hin Hr. rewrite Hentry by done.
    unfold peer_reply. by rewrite Hr.
  - intros tabId error Hin Hr. rewrite Hentry by done.
    unfold peer_reply. by rewrite Hr.
  - intros a b c ra rc error Hids Hnd Ha Hra Hb Hc Hrc.
    split; [by rewrite Hids, size_replies|].
    rewrite !Hentry by (rewrite Hids; set_solver).
    unfold peer_reply. rewrite Ha, Hb, Hc.
    split; [done|]. split; [done|]. eauto using success_of_failure.
Qed.

Lemma broadcast_partial_failure_witness :
  let tabs :=
    [ mkTab (Some 1%Z) "https://a.example/" "A";
      mkTab (Some 2%Z) "chrome://settings/" "Settings";
      mkTab (Some 3%Z) "https://c.example/" "C" ] in
  let api :=
    {| query := Ok tabs;
       respond := λ tabId _,
         if (tabId =? 2)%Z
         then Thrown (ErrorObj "Receiving end does not exist.")
         else Ok (VObj {[ "success" := VBool true ]});
       sent := [] |} in
  ∃ results api',
    broadcastToAllTabs (mkMessage "GET_SETTINGS" None) api
      = (Ok results, api')
    ∧ size results = 3
    ∧ results !! 1%Z = Some (VObj {[ "success" := VBool true ]})
    ∧ results !! 3%Z = Some (VObj {[ "success" := VBool true ]})
    ∧ ∃ rb, results !! 2%Z = Some rb ∧ success_of rb = Some false.
Proof.
  intros tabs api.
  destruct (broadcast_partial_failure api (mkMessage "GET_SETTINGS" None)
              tabs eq_refl)
    as (results & api' & Heq & _ & _ & _ & Hthree).
  exists results, api'. split; [exact Heq|].
  apply (Hthree 1%Z 2%Z 3%Z _ _ (ErrorObj "Receiving end does not exist."));
    try reflexivity.
  by apply (bool_decide_unpack _).
Defined.

(** C9.  The sends that [broadcastToAllTabs] issues go, in enumeration
    order, to the tabs whose identifier is present and not [0], and the
    mapping has an entry for those identifiers only: a tab without an
    identifier, or with the identifier [0], gets no message and no
    entry.  When the enumeration itself is rejected, the call returns
    the empty mapping and sends nothing. *)
Theorem broadcast_skips_falsy_ids api message :
  (∀ tabs,
     query api = Ok tabs →
     ∃ results api',
       broadcastToAllTabs message api = (Ok results, api')
       ∧ sent api' =
           (sent api
              ++ ((λ tabId, (tabId, message)) <$> addressable tabs))%list
       ∧ (∀ tabId, is_Some (results !! tabId) ↔ tabId ∈ addressable tabs)
       ∧ (∀ tabId,
            tabId ∈ addressable tabs ↔
            tabId ≠ 0%Z ∧ ∃ tab, tab ∈ tabs ∧ tab_id tab = Some tabId)
       ∧ length (addressable tabs) =
           length (filter (λ tab, is_Some (truthy_id (tab_id tab))) tabs))
  ∧ (∀ error,
       query api = Thrown error →
       broadcastToAllTabs message api = (Ok ∅, api)).
Proof.
  split.
  - intros tabs Hq. eexists _, _.
    split; [by apply broadcastToAllTabs_enumerated|].
    split; [done|]. split; [|split].
    + intros tabId. rewrite lookup_replies, lookup_empty.
      case_decide; split; done.
    + apply elem_of_addressable.
    + clear Hq. induction tabs as [|tab tabs IH]; [done|].
      rewrite addressable_cons, filter_cons.
      destruct (truthy_id (tab_id tab)) as [tabId|] eqn:Hid.
      * rewrite decide_True by eauto. simpl. by rewrite IH.
      * rewrite decide_False; [done|]. by intros [? ?].
  - intros error. apply broadcastToAllTabs_query_rejected.
Qed.

Lemma broadcast_skips_falsy_ids_witness :
  let tabs :=
    [ mkTab None "" "";
      mkTab (Some 0%Z) "https://zero.example/" "Zero";
      mkTab (Some 5%Z) "https://five.example/" "Five" ] in
  let respond_ok : Z → ExtensionMessage → result value :=
    λ _ _, Ok (VObj {[ "success" := VBool true ]}) in
  let message := mkMessage "GET_SETTINGS" None in
  (∃ results api',
     broadcastToAllTabs message
       {| query := Ok tabs; respond := respond_ok; sent := [] |}
       = (Ok results, api')
     ∧ sent api' = [(5%Z, message)]
     ∧ (∀ tabId, is_Some (results !! tabId) ↔ tabId ∈ [5%Z]))
  ∧ broadcastToAllTabs message
      {| query := Thrown (ErrorObj "Tabs cannot be queried right now");
         respond := respond_ok; sent := [] |}
    = (Ok ∅,
       {| query := Thrown (ErrorObj "Tabs cannot be queried right now");
          respond := respond_ok; sent := [] |}).
Proof.
  intros tabs respond_ok message. split.
  - destruct (proj1 (broadcast_skips_falsy_ids
                       {| query := Ok tabs; respond := respond_ok;
                          sent := [] |} message) tabs eq_refl)
      as (results & api' & Heq & Hsent & Hdom & _).
    exists results, api'. split; [exact Heq|]. split; [exact Hsent|].
    exact Hdom.
  - apply (proj2 (broadcast_skips_falsy_ids
                    {| query :=
                         Thrown (ErrorObj "Tabs cannot be queried right now");
                       respond := respond_ok; sent := [] |} message)
             (ErrorObj "Tabs cannot be queried right now")).
    reflexivity.
Defined.

End Broadcast.

(* ===================================================================== *)
(** ** Message listener *)
(* ===================================================================== *)

Section Listener.

Context {C : Type}.
Implicit Types (handlers : gmap string MessageHandler)
  (message : ExtensionMessage) (sender : MessageSender)
  (sendResponse : value → C → C).

Lemma listener_own handlers message sender sendResponse handler :
  handlers !! msg_type message = Some handler →
  createMessageListener handlers message sender sendResponse =
    match handler message sender with
    | Raises error => mkRun (Thrown error) id id
    | ReturnsPromise p =>
        mkRun (Ok true) id
          match p with
          | Fulfills v => sendResponse v
          | Rejects error => sendResponse (failure (error_text error))
          | Pending => id
          end
    | Returns v => mkRun (Ok false) (sendResponse v) id
    end.
Proof.
  intros Hh. unfold createMessageListener, get_property. by rewrite Hh.
Qed.

Lemma listener_undefined handlers message sender sendResponse :
  handlers !! msg_type message = None →
  msg_type message ∉ Object_prototype_keys →
  createMessageListener handlers message sender sendResponse =
    mkRun (Ok false) (sendResponse (unknown_type (msg_type message))) id.
Proof.
  intros Hh Hproto. unfold createMessageListener, get_property.
  by rewrite Hh, bool_decide_eq_false_2.
Qed.

End Listener.

Section ListenerClaims.

Implicit Types (handlers : gmap string MessageHandler)
  (message : ExtensionMessage) (sender : MessageSender).

(** C3, at the messages on which the listener departs from it.  The
    claim: for every message whose tag has no registered handler the
    listener calls [sendResponse] with
    [{ success: false, error: "Unknown message type: <tag>" }] and does
    not throw.  The tag [__proto__] has no registered handler in the
    empty handler map, yet [handlers[message.type]] finds the prototype
    object, which is truthy and not callable: the listener throws and no
    response is sent.  For the tag [constructor] the lookup finds
    [Object], and the listener replies with the message itself, not with
    the unknown-type response. *)
Theorem listener_inherited_tag :
  let handlers : gmap string MessageHandler := ∅ in
  let sender := mkSender None in
  let run tag :=
    createMessageListener handlers (mkMessage tag None) sender
      record_response in
  handlers !! "__proto__" = None
  ∧ returned (run "__proto__") = Thrown (ErrorObj "handler is not a function")
  ∧ responses (run "__proto__") = []
  ∧ handlers !! "constructor" = None
  ∧ returned (run "constructor") = Ok false
  ∧ responses (run "constructor")
    = [VObj {[ "type" := VStr "constructor" ]}]
  ∧ responses (run "constructor") ≠ [unknown_type "constructor"].
Proof.
  repeat split; try reflexivity.
  intros Heq. vm_compute in Heq. discriminate Heq.
Qed.

(** Away from the inherited names the fallback works: for every message
    whose tag names no property of the handler map, neither a registered
    handler nor a member inherited from [Object.prototype], the listener
    does not throw, returns [false], and its one call of [sendResponse]
    is with [{ success: false, error: "Unknown message type: <tag>" }]. *)
Lemma listener_unknown_message_type handlers message sender :
  handlers !! msg_type message = None →
  msg_type message ∉ Object_prototype_keys →
  (∀ (C : Type) (sendResponse : value → C → C),
     let run := createMessageListener handlers message sender sendResponse in
     returned run = Ok false
     ∧ (∀ c, replied run c
             = sendResponse (unknown_type (msg_type message)) c)
     ∧ (∀ c, replied_later run c = c))
  ∧ responses (createMessageListener handlers message sender record_response)
    = [unknown_type (msg_type message)].
Proof.
  intros Hh Hproto. split.
  - intros C sendResponse. simpl. by rewrite listener_undefined.
  - by rewrite listener_undefined.
Qed.

Lemma listener_unknown_message_type_witness :
  let handlers : gmap string MessageHandler :=
    {[ "GET_SETTINGS" :=
         λ _ _, Returns (VObj {[ "success" := VBool true ]}) ]} in
  let run :=
    createMessageListener handlers (mkMessage "NOT_A_REAL_TAG" None)
      (mkSender None) record_response in
  returned run = Ok false
  ∧ responses run
    = [VObj {[ "success" := VBool false;
               "error" := VStr "Unknown message type: NOT_A_REAL_TAG" ]}].
Proof.
  intros handlers run.
  destruct (listener_unknown_message_type handlers
              (mkMessage "NOT_A_REAL_TAG" None) (mkSender None))
    as [Hrun Hlog].
  - reflexivity.
  - by apply (bool_decide_unpack _).
  - split; [apply (Hrun (list value) record_response) | exact Hlog].
Defined.

(** A registered handler that returns.  If it returns a value that is
    not a promise, the listener calls [sendResponse] with it and returns
    [false].  If it returns a promise, the listener returns [true]
    without replying; once the promise fulfils it calls [sendResponse]
    with the promise's value, and once the promise rejects it calls
    [sendResponse] with [{ success: false, error }], the error text being
    that of the rejection; the rejection goes no further. *)
Lemma listener_registered_handler handlers message sender handler :
  handlers !! msg_type message = Some handler →
  (∀ v,
     handler message sender = Returns v →
     (∀ (C : Type) (sendResponse : value → C → C),
        let run :=
          createMessageListener handlers message sender sendResponse in
        returned run = Ok false
        ∧ (∀ c, replied run c = sendResponse v c)
        ∧ (∀ c, replied_later run c = c))
     ∧ responses
         (createMessageListener handlers message sender record_response)
       = [v])
  ∧ (∀ p,
       handler message sender = ReturnsPromise p →
       (∀ (C : Type) (sendResponse : value → C → C),
          let run :=
            createMessageListener handlers message sender sendResponse in
          returned run = Ok true
          ∧ (∀ c, replied run c = c)
          ∧ (∀ c, replied_later run c =
                  match p with
                  | Fulfills v => sendResponse v c
                  | Rejects error =>
                      sendResponse (failure (error_text error)) c
                  | Pending => c
                  end))
       ∧ responses
           (createMessageListener handlers message sender record_response)
         = match p with
           | Fulfills v => [v]
           | Rejects error => [failure (error_text error)]
           | Pending => []
           end).
Proof.
  intros Hh. split.
  - intros v Hv. split.
    + intros C sendResponse. simpl.
      by rewrite (listener_own _ _ _ _ _ Hh), Hv.
    + by rewrite (listener_own _ _ _ _ _ Hh), Hv.
  - intros p Hp. split.
    + intros C sendResponse. simpl.
      rewrite (listener_own _ _ _ _ _ Hh), Hp. by destruct p.
    + rewrite (listener_own _ _ _ _ _ Hh), Hp. by destruct p.
Qed.

Lemma listener_registered_handler_witness :
  let ok := VObj {[ "success" := VBool true ]} in
  let handlers : gmap string MessageHandler :=
    {[ "CONTENT_SCRIPT_READY" := λ _ _, Returns ok;
       "GET_SETTINGS" :=
         λ _ _, ReturnsPromise (Rejects (ErrorObj "Storage error")) ]} in
  let listen tag :=
    createMessageListener handlers (mkMessage tag None) (mkSender None)
      record_response in
  (returned (listen "CONTENT_SCRIPT_READY") = Ok false
   ∧ responses (listen "CONTENT_SCRIPT_READY") = [ok])
  ∧ (returned (listen "GET_SETTINGS") = Ok true
     ∧ responses (listen "GET_SETTINGS") = [failure "Storage error"]).
Proof.
  intros ok handlers listen. split.
  - destruct (proj1 (listener_registered_handler handlers
                       (mkMessage "CONTENT_SCRIPT_READY" None)
                       (mkSender None) (λ _ _, Returns ok) eq_refl)
                ok eq_refl) as [Hrun Hlog].
    split; [apply (Hrun (list value) record_response) | exact Hlog].
  - destruct (proj2 (listener_registered_handler handlers
                       (mkMessage "GET_SETTINGS" None) (mkSender None)
                       (λ _ _, ReturnsPromise
                                 (Rejects (ErrorObj "Storage error")))
                       eq_refl)
                (Rejects (ErrorObj "Storage error")) eq_refl)
      as [Hrun Hlog].
    split; [apply (Hrun (list value) record_response) | exact Hlog].
Defined.

(** C4, at a handler on which the listener departs from it.  The claim:
    for every registered handler the listener delivers exactly one
    response.  A handler registered for [PERFORM_ACTION] that throws
    [Error("Action failed")] when called, as a function that is not
    [async] may, is called outside any [try]: the listener throws that
    error, returns nothing, and [sendResponse] is never called, neither
    before the throw nor later.  The same error as the rejection of a
    returned promise is answered with
    [{ success: false, error: "Action failed" }]. *)
Theorem listener_throwing_handler_unanswered :
  let error := ErrorObj "Action failed" in
  let message := mkMessage "PERFORM_ACTION" None in
  let sender := mkSender None in
  let throwing : gmap string MessageHandler :=
    {[ "PERFORM_ACTION" := λ _ _, Raises error ]} in
  let rejecting : gmap string MessageHandler :=
    {[ "PERFORM_ACTION" := λ _ _, ReturnsPromise (Rejects error) ]} in
  (∃ handler, throwing !! msg_type message = Some handler)
  ∧ returned (createMessageListener throwing message sender record_response)
    = Thrown error
  ∧ responses (createMessageListener throwing message sender record_response)
    = []
  ∧ (∀ (C : Type) (sendResponse : value → C → C) c,
       let run := createMessageListener throwing message sender sendResponse in
       replied run c = c ∧ replied_later run c = c)
  ∧ returned (createMessageListener rejecting message sender record_response)
    = Ok true
  ∧ responses (createMessageListener rejecting message sender record_response)
    = [failure "Action failed"].
Proof.
  intros error message sender throwing rejecting.
  split; [by eexists|].
  repeat split; reflexivity.
Qed.

End ListenerClaims.

(* ===================================================================== *)
(** ** Storage helpers: reads, writes, removal *)
(* ===================================================================== *)

Section StorageHelpersFacts.

Implicit Types (area : SyncArea) (store : SyncStore) (key : StorageKey)
  (v d : value) (U X : gmap string value).

Lemma STORAGE_KEYS_inj key key' :
  STORAGE_KEYS key = STORAGE_KEYS key' → key = key'.
Proof. by destruct key, key'. Qed.

Lemma setStorageValue_eq key v area :
  setStorageValue key v area =
    match set_rejects area with
    | Some _ => (Ok false, area)
    | None => (Ok true, area_put (STORAGE_KEYS key) v area)
    end.
Proof.
  unfold setStorageValue, try_catch, chrome_storage_sync_set, mbind,
    Async_bind, mret, Async_ret, area_put.
  destruct (set_rejects area); [done|].
  by rewrite <- insert_union_singleton_l.
Qed.

Lemma nullish_or_Some v d : nullish_or (Some v) d = or_default v d.
Proof. by destruct v. Qed.

(** X1.  On an area that accepts the write and the read, a value written
    with [setStorageValue] is what [getStorageValue] returns for the same
    key, except that a stored [null] reads back as the caller's default;
    reads of the other keys are as before the write. *)
Theorem setStorageValue_then_getStorageValue key v d area :
  set_rejects area = None →
  get_rejects area = None →
  ∃ area',
    setStorageValue key v area = (Ok true, area')
    ∧ getStorageValue key d area' = (Ok (or_default v d), area')
    ∧ ∀ key' d',
        key' ≠ key →
        (getStorageValue key' d' area').1 = (getStorageValue key' d' area).1.
Proof.
  intros Hset Hget. exists (area_put (STORAGE_KEYS key) v area).
  split; [by rewrite setStorageValue_eq, Hset|]. split.
  - rewrite getStorageValue_eq. simpl.
    by rewrite Hget, lookup_insert_eq, nullish_or_Some.
  - intros key' d' Hne. rewrite !getStorageValue_eq. simpl.
    rewrite lookup_insert_ne; [done|].
    intros Heq. by apply Hne, STORAGE_KEYS_inj.
Qed.

Lemma setStorageValue_then_getStorageValue_witness :
  ∃ area',
    setStorageValue CACHE (VNum 7) (area_with ∅) = (Ok true, area')
    ∧ getStorageValue CACHE VNull area' = (Ok (VNum 7), area')
    ∧ ∀ key' d',
        key' ≠ CACHE →
        (getStorageValue key' d' area').1
        = (getStorageValue key' d' (area_with ∅)).1.
Proof.
  apply (setStorageValue_then_getStorageValue CACHE (VNum 7) VNull
           (area_with ∅)); reflexivity.
Defined.

(** X2.  A write that the area rejects is reported as [false], not
    thrown, and leaves the area as it was; a read that the area rejects
    yields the caller's default, not a throw. *)
Theorem storage_rejections_are_values key v d area :
  (is_Some (set_rejects area) → setStorageValue key v area = (Ok false, area))
  ∧ (is_Some (get_rejects area) → getStorageValue key d area = (Ok d, area)).
Proof.
  split.
  - intros [e He]. by rewrite setStorageValue_eq, He.
  - intros [e He]. by rewrite getStorageValue_eq, He.
Qed.

Lemma storage_rejections_are_values_witness :
  let area :=
    {| items := {[ STORAGE_KEYS CACHE := VNum 1 ]};
       get_rejects := Some (ErrorObj "Storage error");
       set_rejects := Some (NonError (VStr "QUOTA_BYTES exceeded")) |} in
  setStorageValue CACHE (VNum 2) area = (Ok false, area)
  ∧ getStorageValue CACHE (VNum 0) area = (Ok (VNum 0), area).
Proof.
  intros area.
  destruct (storage_rejections_are_values CACHE (VNum 2) (VNum 0) area)
    as [Hset Hget].
  split; [apply Hset | apply Hget]; simpl; eauto.
Defined.

Lemma removeStorageValue_eq key store :
  removeStorageValue key store =
    match remove_rejects store with
    | Some _ => (Ok false, store)
    | None => (Ok true, with_items (delete (STORAGE_KEYS key)) store)
    end.
Proof.
  unfold removeStorageValue, try_catch, chrome_storage_sync_remove, mbind,
    Async_bind, mret, Async_ret.
  by destruct (remove_rejects store).
Qed.

Lemma clearStorage_eq store :
  clearStorage store =
    match clear_rejects store with
    | Some _ => (Ok false, store)
    | None => (Ok true, with_items (λ _, ∅) store)
    end.
Proof.
  unfold clearStorage, try_catch, chrome_storage_sync_clear, mbind,
    Async_bind, mret, Async_ret.
  by destruct (clear_rejects store).
Qed.

Lemma getStorageValue_missing key d area :
  items area !! STORAGE_KEYS key = None →
  getStorageValue key d area = (Ok d, area).
Proof.
  intros Hk. rewrite getStorageValue_eq, Hk. by destruct (get_rejects area).
Qed.

Lemma getUserSettings_missing area :
  items area !! STORAGE_KEYS USER_SETTINGS = None →
  getUserSettings area = (Ok DEFAULT_USER_SETTINGS, area).
Proof.
  intros Hk. rewrite getUserSettings_eq. unfold settings_read. rewrite Hk.
  assert (own_props (VObj DEFAULT_USER_SETTINGS) ∪ DEFAULT_USER_SETTINGS
          = DEFAULT_USER_SETTINGS) as Hd by apply (idemp_L _).
  by destruct (get_rejects area); simpl in *; rewrite Hd.
Qed.

(** X3.  When the area accepts the removal, [removeStorageValue] returns
    [true]; afterwards a read of that key yields the caller's default,
    reads of the other keys are as before, and if the key is the settings
    slot [getUserSettings] returns the compiled defaults. *)
Theorem removeStorageValue_then_reads key store :
  remove_rejects store = None →
  ∃ store',
    removeStorageValue key store = (Ok true, store')
    ∧ (∀ d, getStorageValue key d (sync_area store')
            = (Ok d, sync_area store'))
    ∧ (∀ key' d,
         key' ≠ key →
         (getStorageValue key' d (sync_area store')).1
         = (getStorageValue key' d (sync_area store)).1)
    ∧ (key = USER_SETTINGS →
       getUserSettings (sync_area store')
       = (Ok DEFAULT_USER_SETTINGS, sync_area store')).
Proof.
  intros Hrm. exists (with_items (delete (STORAGE_KEYS key)) store).
  split; [by rewrite removeStorageValue_eq, Hrm|].
  split; [|split].
  - intros d. apply getStorageValue_missing. simpl. apply lookup_delete_eq.
  - intros key' d Hne. rewrite !getStorageValue_eq. simpl.
    rewrite lookup_delete_ne; [done|].
    intros Heq. by apply Hne, STORAGE_KEYS_inj.
  - intros ->. apply getUserSettings_missing. simpl. apply lookup_delete_eq.
Qed.

Lemma removeStorageValue_then_reads_witness :
  let S := <[ "tier" := VStr "pro" ]> DEFAULT_USER_SETTINGS in
  let store :=
    {| sync_area := area_with {[ STORAGE_KEYS USER_SETTINGS := VObj S ]};
       remove_rejects := None; clear_rejects := None |} in
  ∃ store',
    removeStorageValue USER_SETTINGS store = (Ok true, store')
    ∧ getUserSettings (sync_area store')
      = (Ok DEFAULT_USER_SETTINGS, sync_area store').
Proof.
  intros S store.
  destruct (removeStorageValue_then_reads USER_SETTINGS store eq_refl)
    as (store' & Hrm & _ & _ & Hsettings).
  exists store'. split; [exact Hrm|]. by apply Hsettings.
Defined.

(** X4.  When the area accepts the clearing, [clearStorage] returns
    [true]; afterwards every read yields the caller's default and
    [getUserSettings] returns the compiled defaults. *)
Theorem clearStorage_then_reads store :
  clear_rejects store = None →
  ∃ store',
    clearStorage store = (Ok true, store')
    ∧ (∀ key d, getStorageValue key d (sync_area store')
                = (Ok d, sync_area store'))
    ∧ getUserSettings (sync_area store')
      = (Ok DEFAULT_USER_SETTINGS, sync_area store').
Proof.
  intros Hcl. exists (with_items (λ _, ∅) store).
  split; [by rewrite clearStorage_eq, Hcl|]. split.
  - intros key d. by apply getStorageValue_missing.
  - by apply getUserSettings_missing.
Qed.

Lemma clearStorage_then_reads_witness :
  let store :=
    {| sync_area :=
         area_with {[ STORAGE_KEYS CACHE := VNum 1;
                      STORAGE_KEYS LAST_SYNC := VNum 2 ]};
       remove_rejects := None; clear_rejects := None |} in
  ∃ store',
    clearStorage store = (Ok true, store')
    ∧ (∀ key d, getStorageValue key d (sync_area store')
                = (Ok d, sync_area store'))
    ∧ getUserSettings (sync_area store')
      = (Ok DEFAULT_USER_SETTINGS, sync_area store').
Proof.
  intros store. by apply (clearStorage_then_reads store).
Defined.

(** X5.  A removal or a clearing that the area rejects is reported as
    [false], not thrown, and leaves the store as it was. *)
Theorem removal_rejections_are_values key store :
  (is_Some (remove_rejects store) →
   removeStorageValue key store = (Ok false, store))
  ∧ (is_Some (clear_rejects store) → clearStorage store = (Ok false, store)).
Proof.
  split.
  - intros [e He]. by rewrite removeStorageValue_eq, He.
  - intros [e He]. by rewrite clearStorage_eq, He.
Qed.

Lemma removal_rejections_are_values_witness :
  let store :=
    {| sync_area := area_with {[ STORAGE_KEYS CACHE := VNum 1 ]};
       remove_rejects := Some (ErrorObj "Storage error");
       clear_rejects := Some (ErrorObj "Storage error") |} in
  removeStorageValue CACHE store = (Ok false, store)
  ∧ clearStorage store = (Ok false, store).
Proof.
  intros store.
  destruct (removal_rejections_are_values CACHE store) as [Hrm Hcl].
  split; [apply Hrm | apply Hcl]; simpl; eauto.
Defined.

End StorageHelpersFacts.

(* ===================================================================== *)
(** ** Settings store: what reads and updates keep *)
(* ===================================================================== *)

Section SettingsStoreFacts.

Implicit Types (area : SyncArea) (U X : gmap string value).

Lemma union_defaults_absorbed U X :
  U ∪ (X ∪ DEFAULT_USER_SETTINGS) ∪ DEFAULT_USER_SETTINGS
  = U ∪ (X ∪ DEFAULT_USER_SETTINGS).
Proof.
  rewrite <- !(assoc_L (∪)).
  by rewrite (idemp_L (∪) DEFAULT_USER_SETTINGS).
Qed.

Lemma area_saved_twice X Y area :
  area_saved Y (area_saved X area) = area_saved Y area.
Proof. unfold area_saved. simpl. by rewrite insert_insert_eq. Qed.

(** X6.  Whatever the settings slot holds, and whether or not the read is
    rejected, [getUserSettings] returns a record, leaves the area as it
    was, and the record has every top-level key of the defaults.  When the
    read goes through, each property of the stored value is in the record
    with the stored value, and every other key of the record is a default
    with its default value (a stored [null] has no property, so then the
    record is the defaults). *)
Theorem getUserSettings_top_level area :
  ∃ r,
    getUserSettings area = (Ok r, area)
    ∧ dom DEFAULT_USER_SETTINGS ⊆ dom r
    ∧ (get_rejects area = None →
       ∀ stored,
         items area !! STORAGE_KEYS USER_SETTINGS = Some stored →
         (∀ k v, own_props stored !! k = Some v → r !! k = Some v)
         ∧ (∀ k, own_props stored !! k = None →
                 r !! k = DEFAULT_USER_SETTINGS !! k)).
Proof.
  eexists. split; [apply getUserSettings_eq|]. split.
  - rewrite dom_union_L. apply union_subseteq_r.
  - intros Hget stored Hslot. unfold settings_read.
    rewrite Hget, Hslot, nullish_or_Some.
    destruct stored as [|b|n|s|l|m]; simpl;
      try (split; [intros k v Hk; by apply lookup_union_Some_l
                  |intros k Hk; by rewrite lookup_union_r]).
    split; [by intros k v Hk|]. intros k _.
    by rewrite (idemp_L (∪) DEFAULT_USER_SETTINGS).
Qed.

Lemma getUserSettings_top_level_witness :
  let stored := VObj {[ "theme" := VStr "dark"; "legacy" := VNum 1 ]} in
  let area := area_with {[ STORAGE_KEYS USER_SETTINGS := stored ]} in
  ∃ r,
    getUserSettings area = (Ok r, area)
    ∧ dom DEFAULT_USER_SETTINGS ⊆ dom r
    ∧ (∀ k v, own_props stored !! k = Some v → r !! k = Some v)
    ∧ (∀ k, own_props stored !! k = None →
            r !! k = DEFAULT_USER_SETTINGS !! k).
Proof.
  intros stored area.
  destruct (getUserSettings_top_level area) as (r & Hr & Hdom & Hread).
  exists r. split; [exact Hr|]. split; [exact Hdom|].
  apply (Hread eq_refl stored). reflexivity.
Defined.

(** X7.  On an area that accepts the write and the read, the record that
    [updateUserSettings] returns is the record that the next
    [getUserSettings] returns. *)
Theorem updateUserSettings_then_get U area :
  set_rejects area = None →
  get_rejects area = None →
  ∃ r area',
    updateUserSettings U area = (Ok (Some r), area')
    ∧ getUserSettings area' = (Ok r, area').
Proof.
  intros Hset Hget. rewrite updateUserSettings_eq, Hset. simpl.
  eexists _, _. split; [done|].
  rewrite getUserSettings_eq, settings_read_saved by done. simpl.
  by rewrite union_defaults_absorbed.
Qed.

Lemma updateUserSettings_then_get_witness :
  ∃ r area',
    updateUserSettings {[ "tier" := VStr "pro" ]} (area_with ∅)
      = (Ok (Some r), area')
    ∧ getUserSettings area' = (Ok r, area').
Proof.
  apply (updateUserSettings_then_get {[ "tier" := VStr "pro" ]}
           (area_with ∅)); reflexivity.
Defined.

(** X8.  On an area that accepts the writes and the reads, two updates
    in a row return and store what the single update with the second
    spread over the first returns and stores. *)
Theorem updateUserSettings_twice U1 U2 area :
  set_rejects area = None →
  get_rejects area = None →
  ∃ r1 area1,
    updateUserSettings U1 area = (Ok (Some r1), area1)
    ∧ updateUserSettings U2 area1 = updateUserSettings (U2 ∪ U1) area.
Proof.
  intros Hset Hget. rewrite !updateUserSettings_eq, Hset. simpl.
  eexists _, _. split; [done|].
  rewrite updateUserSettings_eq. simpl. rewrite Hset.
  rewrite settings_read_saved by done. simpl.
  rewrite area_saved_twice, union_defaults_absorbed.
  by rewrite !(assoc_L (∪)).
Qed.

Lemma updateUserSettings_twice_witness :
  ∃ r1 area1,
    updateUserSettings {[ "theme" := VStr "dark" ]} (area_with ∅)
      = (Ok (Some r1), area1)
    ∧ updateUserSettings {[ "tier" := VStr "pro" ]} area1
      = updateUserSettings
          ({[ "tier" := VStr "pro" ]} ∪ {[ "theme" := VStr "dark" ]})
          (area_with ∅).
Proof.
  apply (updateUserSettings_twice {[ "theme" := VStr "dark" ]}
           {[ "tier" := VStr "pro" ]} (area_with ∅)); reflexivity.
Defined.

(** X9.  When the write is accepted, every top-level field of the update
    is in the returned record exactly as the update gives it (a nested
    record replaces the stored one whole, it is not merged into it), and
    every key the update does not have keeps the value that
    [getUserSettings] gave it. *)
Theorem updateUserSettings_fields U area :
  set_rejects area = None →
  ∃ current r area',
    getUserSettings area = (Ok current, area)
    ∧ updateUserSettings U area = (Ok (Some r), area')
    ∧ (∀ k v, U !! k = Some v → r !! k = Some v)
    ∧ (∀ k, U !! k = None → r !! k = current !! k).
Proof.
  intros Hset. rewrite getUserSettings_eq, updateUserSettings_eq, Hset.
  simpl. eexists _, _, _. split; [done|]. split; [done|]. split.
  - intros k v Hk. by apply lookup_union_Some_l.
  - intros k Hk. by rewrite lookup_union_r.
Qed.

Lemma updateUserSettings_fields_witness :
  let U : gmap string value :=
    {[ "notifications" := VObj {[ "sound" := VBool true ]} ]} in
  ∃ current r area',
    getUserSettings (area_with ∅) = (Ok current, area_with ∅)
    ∧ updateUserSettings U (area_with ∅) = (Ok (Some r), area')
    ∧ (∀ k v, U !! k = Some v → r !! k = Some v)
    ∧ (∀ k, U !! k = None → r !! k = current !! k).
Proof.
  intros U. by apply (updateUserSettings_fields U (area_with ∅)).
Defined.

(** X10.  [resetUserSettings] done twice leaves the area that doing it
    once leaves and reports the same; and on an area that accepts the
    write and the read, [getUserSettings] after it returns the compiled
    defaults, whatever was stored. *)
Theorem resetUserSettings_idempotent area :
  resetUserSettings (resetUserSettings area).2 = resetUserSettings area
  ∧ (set_rejects area = None → get_rejects area = None →
     (resetUserSettings area).1 = Ok true
     ∧ (getUserSettings (resetUserSettings area).2).1
       = Ok DEFAULT_USER_SETTINGS).
Proof.
  unfold resetUserSettings. rewrite !saveUserSettings_eq. split.
  - destruct (set_rejects area) as [e|] eqn:Hset; simpl.
    + by rewrite Hset.
    + by rewrite Hset, area_saved_twice.
  - intros -> Hget. simpl. split; [done|].
    rewrite getUserSettings_eq, settings_read_saved by done. simpl.
    by rewrite (idemp_L (∪) DEFAULT_USER_SETTINGS).
Qed.

Lemma resetUserSettings_idempotent_witness :
  let area :=
    area_with {[ STORAGE_KEYS USER_SETTINGS :=
                   VObj {[ "tier" := VStr "pro" ]} ]} in
  (resetUserSettings area).1 = Ok true
  ∧ (getUserSettings (resetUserSettings area).2).1
    = Ok DEFAULT_USER_SETTINGS.
Proof.
  intros area.
  by apply (proj2 (resetUserSettings_idempotent area)).
Defined.

Lemma update_step_read U area :
  update_step (AwaitingRead U) area =
    (AwaitingWrite U (own_props (settings_read area) ∪ DEFAULT_USER_SETTINGS),
     area).
Proof. unfold update_step. by rewrite getUserSettings_eq. Qed.

Lemma update_step_write U current area :
  update_step (AwaitingWrite U current) area =
    match set_rejects area with
    | Some _ => (Returned None, area)
    | None => (Returned (Some (U ∪ current)), area_saved (U ∪ current) area)
    end.
Proof.
  unfold update_step, spread. rewrite saveUserSettings_eq.
  by destruct (set_rejects area).
Qed.

Lemma run_calls_first schedule call1 call2 area :
  run_calls (true :: schedule) (call1, call2) area =
    run_calls schedule ((update_step call1 area).1, call2)
      (update_step call1 area).2.
Proof. cbn [run_calls fst snd]. by destruct (update_step call1 area). Qed.

Lemma run_calls_second schedule call1 call2 area :
  run_calls (false :: schedule) (call1, call2) area =
    run_calls schedule (call1, (update_step call2 area).1)
      (update_step call2 area).2.
Proof. cbn [run_calls fst snd]. by destruct (update_step call2 area). Qed.

Lemma run_calls_done calls area : run_calls [] calls area = (calls, area).
Proof. done. Qed.

(** X28.  The read and the write of [updateUserSettings] are separate
    awaited steps.  Two calls whose steps do not interleave give what
    calling the function twice gives.  When instead both reads settle
    before both writes, on an area that accepts them, both calls return
    their merged record as a success, but the record stored at the end
    is the second update spread over what was read: a key that only the
    first update changed has the value it had before. *)
Theorem updateUserSettings_lost_update U1 U2 area :
  set_rejects area = None →
  get_rejects area = None →
  (∃ r1 area1 r2 area2,
     updateUserSettings U1 area = (Ok r1, area1)
     ∧ updateUserSettings U2 area1 = (Ok r2, area2)
     ∧ run_calls [true; true; false; false]
         (AwaitingRead U1, AwaitingRead U2) area
       = (Returned r1, Returned r2, area2))
  ∧ (∃ current area',
       getUserSettings area = (Ok current, area)
       ∧ run_calls [true; false; true; false]
           (AwaitingRead U1, AwaitingRead U2) area
         = (Returned (Some (spread current U1)),
            Returned (Some (spread current U2)), area')
       ∧ getUserSettings area' = (Ok (spread current U2), area')
       ∧ ∀ k, U2 !! k = None → spread current U2 !! k = current !! k).
Proof.
  intros Hset Hget. split.
  - rewrite updateUserSettings_eq, Hset. cbn zeta.
    do 4 eexists. split; [reflexivity|].
    rewrite updateUserSettings_eq.
    change (set_rejects (area_saved ?s area)) with (set_rejects area).
    rewrite Hset. cbn zeta. split; [reflexivity|].
    rewrite run_calls_first, update_step_read. cbn [fst snd].
    rewrite run_calls_first, update_step_write, Hset. cbn [fst snd].
    rewrite run_calls_second, update_step_read. cbn [fst snd].
    rewrite run_calls_second, update_step_write.
    change (set_rejects (area_saved ?s area)) with (set_rejects area).
    by rewrite Hset.
  - exists (own_props (settings_read area) ∪ DEFAULT_USER_SETTINGS).
    eexists. split; [apply getUserSettings_eq|]. split; [|split].
    + rewrite run_calls_first, update_step_read. cbn [fst snd].
      rewrite run_calls_second, update_step_read. cbn [fst snd].
      rewrite run_calls_first, update_step_write, Hset. cbn [fst snd].
      rewrite run_calls_second, update_step_write.
      change (set_rejects (area_saved ?s area)) with (set_rejects area).
      rewrite Hset. cbn [fst snd]. by rewrite run_calls_done.
    + rewrite area_saved_twice, getUserSettings_eq.
      rewrite settings_read_saved by done.
      unfold spread. cbn [own_props].
      by rewrite union_defaults_absorbed.
    + intros k Hk. unfold spread. by rewrite lookup_union_r.
Qed.

Lemma updateUserSettings_lost_update_witness :
  let U1 : gmap string value := {[ "theme" := VStr "dark" ]} in
  let U2 : gmap string value := {[ "enabled" := VBool false ]} in
  ∃ current area',
    getUserSettings (area_with ∅) = (Ok current, area_with ∅)
    ∧ run_calls [true; false; true; false]
        (AwaitingRead U1, AwaitingRead U2) (area_with ∅)
      = (Returned (Some (spread current U1)),
         Returned (Some (spread current U2)), area')
    ∧ getUserSettings area' = (Ok (spread current U2), area')
    ∧ spread current U2 !! "theme" = current !! "theme".
Proof.
  intros U1 U2.
  destruct (proj2 (updateUserSettings_lost_update U1 U2 (area_with ∅)
                     eq_refl eq_refl))
    as (current & area' & Hread & Hrun & Hfinal & Hkeep).
  exists current, area'.
  repeat (split; [assumption|]). by apply Hkeep.
Defined.

End SettingsStoreFacts.

(* ===================================================================== *)
(** ** Local storage and the settings change listener *)
(* ===================================================================== *)

Section LocalStorageFacts.

Implicit Types (area : LocalArea) (key : string) (v d : value).

Lemma getLocalStorageValue_eq key d area :
  getLocalStorageValue key d area =
    (Ok match local_get_rejects area with
        | Some _ => Stored d
        | None =>
            match local_items area !! key with
            | Some v => Stored (or_default v d)
            | None =>
                if bool_decide (key ∈ Object_prototype_keys)
                then Builtin key else Stored d
            end
        end,
     area).
Proof.
  unfold getLocalStorageValue, try_catch, chrome_storage_local_get, mbind,
    Async_bind, mret, Async_ret, get_property.
  destruct (local_get_rejects area); [done|].
  destruct (local_items area !! key) as [v|].
  - rewrite lookup_singleton_eq. by destruct v.
  - rewrite lookup_empty. by destruct (bool_decide _).
Qed.

Lemma setLocalStorageValue_eq key v area :
  setLocalStorageValue key v area =
    match local_set_rejects area with
    | Some _ => (Ok false, area)
    | None => (Ok true, local_put key v area)
    end.
Proof.
  unfold setLocalStorageValue, try_catch, chrome_storage_local_set, mbind,
    Async_bind, mret, Async_ret, local_put.
  destruct (local_set_rejects area); [done|].
  by rewrite <- insert_union_singleton_l.
Qed.

(** X11.  On a local area that accepts the write and the read, a value
    written with [setLocalStorageValue] is what [getLocalStorageValue]
    returns for the same key, except that a stored [null] reads back as
    the caller's default; reads of the other keys are as before the
    write.  The key is any string that does not name a member of
    [Object.prototype]. *)
Theorem setLocalStorageValue_then_get key v d area :
  key ∉ Object_prototype_keys →
  local_set_rejects area = None →
  local_get_rejects area = None →
  ∃ area',
    setLocalStorageValue key v area = (Ok true, area')
    ∧ getLocalStorageValue key d area' = (Ok (Stored (or_default v d)), area')
    ∧ ∀ key' d',
        key' ≠ key →
        (getLocalStorageValue key' d' area').1
        = (getLocalStorageValue key' d' area).1.
Proof.
  intros _ Hset Hget. exists (local_put key v area).
  split; [by rewrite setLocalStorageValue_eq, Hset|]. split.
  - rewrite getLocalStorageValue_eq. simpl.
    by rewrite Hget, lookup_insert_eq.
  - intros key' d' Hne. rewrite !getLocalStorageValue_eq. simpl.
    by rewrite lookup_insert_ne.
Qed.

Lemma setLocalStorageValue_then_get_witness :
  let area :=
    {| local_items := ∅; local_get_rejects := None;
       local_set_rejects := None |} in
  let big := VObj {[ "rows" := VArr [VNum 1; VNum 2] ]} in
  ∃ area',
    setLocalStorageValue "largeData" big area = (Ok true, area')
    ∧ getLocalStorageValue "largeData" VNull area' = (Ok (Stored big), area')
    ∧ ∀ key' d',
        key' ≠ "largeData" →
        (getLocalStorageValue key' d' area').1
        = (getLocalStorageValue key' d' area).1.
Proof.
  intros area big.
  apply (setLocalStorageValue_then_get "largeData" big VNull area);
    [|reflexivity..].
  by apply (bool_decide_unpack _).
Defined.

(** X12.  [getLocalStorageValue] yields the caller's default, without
    throwing and without changing the area, when the read is rejected and
    when nothing is stored under a key that names no member of
    [Object.prototype]; [setLocalStorageValue] reports a rejected write as
    [false] and leaves the area as it was. *)
Theorem local_storage_fallbacks key v d area :
  (is_Some (local_get_rejects area) →
   getLocalStorageValue key d area = (Ok (Stored d), area))
  ∧ (key ∉ Object_prototype_keys → local_items area !! key = None →
     getLocalStorageValue key d area = (Ok (Stored d), area))
  ∧ (is_Some (local_set_rejects area) →
     setLocalStorageValue key v area = (Ok false, area)).
Proof.
  split; [|split].
  - intros [e He]. by rewrite getLocalStorageValue_eq, He.
  - intros Hproto Hk. rewrite getLocalStorageValue_eq, Hk.
    rewrite bool_decide_eq_false_2 by done.
    by destruct (local_get_rejects area).
  - intros [e He]. by rewrite setLocalStorageValue_eq, He.
Qed.

Lemma local_storage_fallbacks_witness :
  let broken :=
    {| local_items := {[ "key" := VNum 1 ]};
       local_get_rejects := Some (ErrorObj "Storage error");
       local_set_rejects := Some (ErrorObj "Storage error") |} in
  let empty :=
    {| local_items := ∅; local_get_rejects := None;
       local_set_rejects := None |} in
  getLocalStorageValue "key" (VStr "fallback") broken
    = (Ok (Stored (VStr "fallback")), broken)
  ∧ getLocalStorageValue "nonexistent" (VStr "default") empty
    = (Ok (Stored (VStr "default")), empty)
  ∧ setLocalStorageValue "key" (VStr "value") broken = (Ok false, broken).
Proof.
  intros broken empty. split; [|split].
  - apply (proj1 (local_storage_fallbacks "key" VNull (VStr "fallback")
                    broken)).
    simpl. eauto.
  - apply (proj1 (proj2 (local_storage_fallbacks "nonexistent" VNull
                           (VStr "default") empty))); [|reflexivity].
    by apply (bool_decide_unpack _).
  - apply (proj2 (proj2 (local_storage_fallbacks "key" (VStr "value") VNull
                           broken))).
    simpl. eauto.
Defined.

End LocalStorageFacts.

Section ChangeListenerFacts.

Implicit Types (changes : gmap string StorageChange) (areaName : string).

(** X13.  The listener registered by [onUserSettingsChange] calls the
    callback only for a change of the settings slot in the [sync] area.
    When it does, the old value is passed as reported, and the new
    settings passed have every top-level key of the defaults: the
    properties of the reported new value with their values, and the
    defaults for the rest (all of them when no new value is reported). *)
Theorem onUserSettingsChange_listener_calls changes areaName :
  (areaName ≠ "sync" → onUserSettingsChange_listener changes areaName = None)
  ∧ (changes !! STORAGE_KEYS USER_SETTINGS = None →
     onUserSettingsChange_listener changes areaName = None)
  ∧ (∀ change,
       areaName = "sync" →
       changes !! STORAGE_KEYS USER_SETTINGS = Some change →
       ∃ newSettings,
         onUserSettingsChange_listener changes areaName
         = Some (newSettings, oldValue change)
         ∧ dom DEFAULT_USER_SETTINGS ⊆ dom newSettings
         ∧ (∀ v k x,
              newValue change = Some v → own_props v !! k = Some x →
              newSettings !! k = Some x)
         ∧ (∀ v k,
              newValue change = Some v → own_props v !! k = None →
              newSettings !! k = DEFAULT_USER_SETTINGS !! k)
         ∧ (newValue change = None → newSettings = DEFAULT_USER_SETTINGS)).
Proof.
  unfold onUserSettingsChange_listener. split; [|split].
  - intros Hne. by apply String.eqb_neq in Hne as ->.
  - intros ->. by destruct (String.eqb areaName "sync").
  - intros change -> ->. simpl. eexists. split; [done|].
    unfold spread. split; [|split; [|split]].
    + rewrite dom_union_L. apply union_subseteq_r.
    + intros v k x -> Hk. by apply lookup_union_Some_l.
    + intros v k -> Hk. by rewrite lookup_union_r.
    + intros ->. apply (left_id_L ∅ (∪)).
Qed.

Lemma onUserSettingsChange_listener_calls_witness :
  let change :=
    {| newValue := Some (VObj {[ "tier" := VStr "pro" ]});
       oldValue := None |} in
  let changes : gmap string StorageChange :=
    {[ STORAGE_KEYS USER_SETTINGS := change ]} in
  onUserSettingsChange_listener changes "local" = None
  ∧ onUserSettingsChange_listener {[ STORAGE_KEYS CACHE := change ]} "sync"
    = None
  ∧ ∃ newSettings,
      onUserSettingsChange_listener changes "sync" = Some (newSettings, None)
      ∧ dom DEFAULT_USER_SETTINGS ⊆ dom newSettings
      ∧ newSettings !! "tier" = Some (VStr "pro").
Proof.
  intros change changes. split; [|split].
  - by apply (proj1 (onUserSettingsChange_listener_calls changes "local")).
  - by apply (proj1 (proj2 (onUserSettingsChange_listener_calls
                              {[ STORAGE_KEYS CACHE := change ]} "sync"))).
  - destruct (proj2 (proj2 (onUserSettingsChange_listener_calls
                              changes "sync")) change eq_refl eq_refl)
      as (newSettings & Hcall & Hdom & Hnew & _).
    exists newSettings. split; [exact Hcall|]. split; [exact Hdom|].
    by apply (Hnew (VObj {[ "tier" := VStr "pro" ]})).
Defined.

End ChangeListenerFacts.

(* ===================================================================== *)
(** ** Feature gate and listener, further facts *)
(* ===================================================================== *)

Section GateFacts.

Lemma FEATURE_ACCESS_free feature requiredTier :
  FEATURE_ACCESS !! feature = Some requiredTier →
  (requiredTier = "free" ↔ feature = "basic_feature").
Proof.
  unfold FEATURE_ACCESS. intros Hreq.
  repeat (apply lookup_insert_Some in Hreq
            as [[<- <-]|[? Hreq]]; [by split|]).
  apply lookup_singleton_Some in Hreq as [<- <-]. by split.
Qed.

(** X14.  For every pair of strings, the gate grants access exactly when
    the tier is ['pro'] or the feature is ['basic_feature']: a pro caller
    is granted every feature name, listed or not, and every other tier,
    ['free'] or not, only the one free feature. *)
Theorem hasFeatureAccess_granted (tier feature : string) :
  hasFeatureAccess tier feature = true ↔
  tier = "pro" ∨ feature = "basic_feature".
Proof.
  unfold hasFeatureAccess, get_property.
  destruct (FEATURE_ACCESS !! feature) as [req|] eqn:Hreq.
  - pose proof (FEATURE_ACCESS_free _ _ Hreq) as Hfree.
    destruct (String.eqb_spec req "free") as [Heq|Hne].
    + split; [|done]. intros _. right. by apply Hfree.
    + rewrite String.eqb_eq. split; [by left|].
      intros [?|Hb]; [done|]. by apply Hfree in Hb.
  - assert (feature ≠ "basic_feature") as Hne by (by intros ->).
    destruct (bool_decide _); rewrite String.eqb_eq;
      (split; [by left | by intros [?|?]]).
Qed.

End GateFacts.

Section ListenerFacts.

Implicit Types (handlers : gmap string MessageHandler)
  (message : ExtensionMessage) (sender : MessageSender).

(** X15.  When the registered handler throws instead of returning, the
    listener throws the same value to the runtime and never calls
    [sendResponse], neither before returning nor later. *)
Theorem listener_handler_throws handlers message sender handler error :
  handlers !! msg_type message = Some handler →
  handler message sender = Raises error →
  (∀ (C : Type) (sendResponse : value → C → C),
     let run := createMessageListener handlers message sender sendResponse in
     returned run = Thrown error
     ∧ (∀ c, replied run c = c)
     ∧ (∀ c, replied_later run c = c))
  ∧ responses (createMessageListener handlers message sender record_response)
    = [].
Proof.
  intros Hh Hr. split.
  - intros C sendResponse. simpl.
    by rewrite (listener_own _ _ _ _ _ Hh), Hr.
  - by rewrite (listener_own _ _ _ _ _ Hh), Hr.
Qed.

Lemma listener_handler_throws_witness :
  let handlers : gmap string MessageHandler :=
    {[ "PERFORM_ACTION" := λ _ _, Raises (ErrorObj "not ready") ]} in
  let run :=
    createMessageListener handlers (mkMessage "PERFORM_ACTION" None)
      (mkSender None) record_response in
  returned run = Thrown (ErrorObj "not ready") ∧ responses run = [].
Proof.
  intros handlers run.
  destruct (listener_handler_throws handlers
              (mkMessage "PERFORM_ACTION" None) (mkSender None)
              (λ _ _, Raises (ErrorObj "not ready")) (ErrorObj "not ready")
              eq_refl eq_refl) as [Hrun Hlog].
  split; [apply (Hrun (list value) record_response) | exact Hlog].
Defined.

End ListenerFacts.

(* ===================================================================== *)
(** ** Senders *)
(* ===================================================================== *)

Section SenderFacts.

Implicit Types (rt : Runtime) (message : ExtensionMessage).

Lemma sendMessage_eq message rt :
  sendMessage message rt =
    (Ok (reply_of rt message), runtime_after rt [message]).
Proof.
  unfold sendMessage, try_catch, chrome_runtime_sendMessage, reply_of.
  by destruct (answer rt message).
Qed.

(** X16.  [sendMessage] never throws and puts exactly one message on the
    channel.  It resolves to the response when there is one; when the
    transport rejects, it resolves to [{ success: false, error }] with the
    text of the error, or ['Unknown error'] when what was thrown is not an
    [Error]. *)
Theorem sendMessage_resolves message rt :
  ∃ response,
    sendMessage message rt = (Ok response, runtime_after rt [message])
    ∧ (∀ r, answer rt message = Ok r → response = r)
    ∧ (∀ text, answer rt message = Thrown (ErrorObj text) →
               response = Some (failure text))
    ∧ (∀ v, answer rt message = Thrown (NonError v) →
            response = Some (failure "Unknown error")).
Proof.
  exists (reply_of rt message). split; [apply sendMessage_eq|].
  unfold reply_of.
  split; [|split]; intros ? Ha; by rewrite Ha.
Qed.

(** X27.  Each typed request helper resolves without throwing and puts
    exactly one message on the channel, and the tag of that message has a
    handler in the background's [messageHandlers]. *)
Theorem typed_requests_are_handled rt area browser
    (updates : gmap string value) (url title action feature : string)
    (data : option value) :
  let handled (request : Async Runtime (option value)) :=
    ∃ message,
      request rt = (Ok (reply_of rt message), runtime_after rt [message])
      ∧ is_Some (messageHandlers area browser !! msg_type message) in
  handled requestSettings
  ∧ handled (requestUpdateSettings updates)
  ∧ handled requestTabInfo
  ∧ handled (notifyContentScriptReady url title)
  ∧ handled (requestAction action data)
  ∧ handled (checkFeatureAccess feature).
Proof.
  simpl. repeat split; eexists; (split; [apply sendMessage_eq|]);
    simpl; eexists; reflexivity.
Qed.

Lemma sendMessage_resolves_witness :
  let rt :=
    runtime_with
      (λ _, Thrown (ErrorObj "Could not establish connection.")) in
  let message := mkMessage "GET_SETTINGS" None in
  sendMessage message rt
  = (Ok (Some (failure "Could not establish connection.")),
     runtime_after rt [message]).
Proof.
  intros rt message.
  destruct (sendMessage_resolves message rt)
    as (response & Hsend & _ & Herr & _).
  rewrite Hsend. by rewrite (Herr "Could not establish connection.").
Defined.

End SenderFacts.

(* ===================================================================== *)
(** ** Background handlers *)
(* ===================================================================== *)

Section ServiceWorkerFacts.

Implicit Types (area : SyncArea) (browser : Browser)
  (message : ExtensionMessage) (sender : MessageSender).

(** X17.  The [GET_SETTINGS] handler always answers [success: true] with
    the record that [getUserSettings] returns, and leaves the area as it
    was; when the read is rejected that record is the compiled defaults,
    so the failure does not show in the response. *)
Theorem GET_SETTINGS_always_succeeds area :
  ∃ settings,
    getUserSettings area = (Ok settings, area)
    ∧ GET_SETTINGS area = (Ok (success_data (VObj settings)), area)
    ∧ (is_Some (get_rejects area) → settings = DEFAULT_USER_SETTINGS).
Proof.
  eexists. split; [apply getUserSettings_eq|]. split.
  - unfold GET_SETTINGS, try_catch, mbind, Async_bind.
    by rewrite getUserSettings_eq.
  - intros [e He]. unfold settings_read. rewrite He. apply (idemp_L _).
Qed.

Lemma GET_SETTINGS_always_succeeds_witness :
  let area :=
    {| items :=
         {[ STORAGE_KEYS USER_SETTINGS := VObj {[ "tier" := VStr "pro" ]} ]};
       get_rejects := Some (ErrorObj "Storage error");
       set_rejects := None |} in
  GET_SETTINGS area = (Ok (success_data (VObj DEFAULT_USER_SETTINGS)), area).
Proof.
  intros area.
  destruct (GET_SETTINGS_always_succeeds area) as (settings & _ & Hget & Hd).
  rewrite Hget. rewrite Hd; [reflexivity|]. simpl. eauto.
Defined.

(** X18.  The [UPDATE_SETTINGS] handler never throws.  When the write is
    rejected it answers [{ success: false, error: 'Failed to update
    settings' }] and leaves the area as it was.  When the write is
    accepted it answers [success: true] with the record that is then in
    the settings slot, in which every property of the payload has the
    payload's value. *)
Theorem UPDATE_SETTINGS_answers message area :
  (is_Some (set_rejects area) →
   UPDATE_SETTINGS message area
   = (Ok (failure "Failed to update settings"), area))
  ∧ (set_rejects area = None →
     ∃ settings area',
       UPDATE_SETTINGS message area
       = (Ok (success_data (VObj settings)), area')
       ∧ items area' !! STORAGE_KEYS USER_SETTINGS = Some (VObj settings)
       ∧ ∀ p k v,
           payload message = Some p → own_props p !! k = Some v →
           settings !! k = Some v).
Proof.
  unfold UPDATE_SETTINGS, try_catch, mbind, Async_bind.
  rewrite updateUserSettings_eq. simpl. split.
  - intros [e He]. by rewrite He.
  - intros ->. eexists _, _. split; [done|]. split.
    + simpl. by rewrite lookup_insert_eq.
    + intros p k v -> Hk. by apply lookup_union_Some_l.
Qed.

Lemma UPDATE_SETTINGS_answers_witness :
  let message :=
    mkMessage "UPDATE_SETTINGS" (Some (VObj {[ "enabled" := VBool false ]})) in
  UPDATE_SETTINGS message
    {| items := ∅; get_rejects := None;
       set_rejects := Some (ErrorObj "QUOTA_BYTES quota exceeded") |}
  = (Ok (failure "Failed to update settings"),
     {| items := ∅; get_rejects := None;
        set_rejects := Some (ErrorObj "QUOTA_BYTES quota exceeded") |})
  ∧ ∃ settings area',
      UPDATE_SETTINGS message (area_with ∅)
      = (Ok (success_data (VObj settings)), area')
      ∧ items area' !! STORAGE_KEYS USER_SETTINGS = Some (VObj settings)
      ∧ settings !! "enabled" = Some (VBool false).
Proof.
  intros message. split.
  - apply (proj1 (UPDATE_SETTINGS_answers message _)). simpl. eauto.
  - destruct (proj2 (UPDATE_SETTINGS_answers message (area_with ∅)) eq_refl)
      as (settings & area' & Hup & Hslot & Hfields).
    exists settings, area'. split; [exact Hup|]. split; [exact Hslot|].
    by apply (Hfields (VObj {[ "enabled" := VBool false ]})).
Defined.

Lemma CHECK_FEATURE_ACCESS_eq message area :
  CHECK_FEATURE_ACCESS message area =
    (Ok match member (payload message) "feature" with
        | Ok feature =>
            match to_string_opt feature with
            | Ok key =>
                success_data
                  (VBool
                     (hasFeatureAccess
                        (tier_of (own_props (settings_read area)
                                    ∪ DEFAULT_USER_SETTINGS))
                        key))
            | Thrown error =>
                failure (error_text_or "Failed to check feature access" error)
            end
        | Thrown error =>
            failure (error_text_or "Failed to check feature access" error)
        end,
     area).
Proof.
  unfold CHECK_FEATURE_ACCESS, try_catch, mbind, Async_bind, settled.
  rewrite getUserSettings_eq.
  destruct (member (payload message) "feature") as [feature|e]; [|done].
  by destruct (to_string_opt feature).
Qed.

(** X19.  For a message whose payload carries a feature name, the
    [CHECK_FEATURE_ACCESS] handler answers [success: true] with what the
    gate says for that name and the [tier] of the record that
    [getUserSettings] returns, and leaves the area as it was.  When the
    read is rejected that tier is the default ['free'], whatever is
    stored. *)
Theorem CHECK_FEATURE_ACCESS_answers message p feature area :
  payload message = Some (VObj p) →
  p !! "feature" = Some (VStr feature) →
  ∃ settings,
    getUserSettings area = (Ok settings, area)
    ∧ CHECK_FEATURE_ACCESS message area
      = (Ok (success_data
               (VBool (hasFeatureAccess (tier_of settings) feature))),
         area)
    ∧ (is_Some (get_rejects area) → tier_of settings = "free").
Proof.
  intros Hp Hf. eexists. split; [apply getUserSettings_eq|]. split.
  - rewrite CHECK_FEATURE_ACCESS_eq, Hp. simpl. by rewrite Hf.
  - intros [e He]. unfold settings_read. by rewrite He.
Qed.

Lemma CHECK_FEATURE_ACCESS_answers_witness :
  let stored := VObj (<[ "tier" := VStr "pro" ]> DEFAULT_USER_SETTINGS) in
  let message :=
    mkMessage "CHECK_FEATURE_ACCESS"
      (Some (VObj {[ "feature" := VStr "export_data" ]})) in
  CHECK_FEATURE_ACCESS message
    (area_with {[ STORAGE_KEYS USER_SETTINGS := stored ]})
  = (Ok (success_data (VBool true)),
     area_with {[ STORAGE_KEYS USER_SETTINGS := stored ]})
  ∧ CHECK_FEATURE_ACCESS message
      {| items := {[ STORAGE_KEYS USER_SETTINGS := stored ]};
         get_rejects := Some (ErrorObj "Storage error");
         set_rejects := None |}
    = (Ok (success_data (VBool false)),
       {| items := {[ STORAGE_KEYS USER_SETTINGS := stored ]};
          get_rejects := Some (ErrorObj "Storage error");
          set_rejects := None |}).
Proof.
  intros stored message. split.
  - destruct (CHECK_FEATURE_ACCESS_answers message
                {[ "feature" := VStr "export_data" ]} "export_data"
                (area_with {[ STORAGE_KEYS USER_SETTINGS := stored ]})
                eq_refl eq_refl) as (settings & Hget & Hcheck & _).
    rewrite Hcheck. rewrite getUserSettings_eq in Hget.
    injection Hget as <-. by vm_compute.
  - destruct (CHECK_FEATURE_ACCESS_answers message
                {[ "feature" := VStr "export_data" ]} "export_data"
                {| items := {[ STORAGE_KEYS USER_SETTINGS := stored ]};
                   get_rejects := Some (ErrorObj "Storage error");
                   set_rejects := None |}
                eq_refl eq_refl) as (settings & _ & Hcheck & Hfree).
    rewrite Hcheck, Hfree; [reflexivity|]. simpl. eauto.
Defined.

(** X20.  A [CHECK_FEATURE_ACCESS] message without a payload, or with a
    [null] one, does not make the handler throw: the [TypeError] of the
    member access is caught and the answer is a [success: false]
    response; the area is left as it was. *)
Theorem CHECK_FEATURE_ACCESS_without_payload message area :
  payload message = None ∨ payload message = Some VNull →
  ∃ response,
    CHECK_FEATURE_ACCESS message area = (Ok response, area)
    ∧ success_of response = Some false.
Proof.
  intros Hp. rewrite CHECK_FEATURE_ACCESS_eq.
  destruct Hp as [->| ->]; eexists; split; done.
Qed.

Lemma CHECK_FEATURE_ACCESS_without_payload_witness :
  ∃ response,
    CHECK_FEATURE_ACCESS (mkMessage "CHECK_FEATURE_ACCESS" None)
      (area_with ∅)
    = (Ok response, area_with ∅)
    ∧ success_of response = Some false.
Proof.
  apply (CHECK_FEATURE_ACCESS_without_payload
           (mkMessage "CHECK_FEATURE_ACCESS" None) (area_with ∅)).
  by left.
Defined.

Lemma usable_tab_Some t tab tabId :
  usable_tab t = Some (tab, tabId) ↔
  t = Some tab ∧ tab_id tab = Some tabId ∧ tabId ≠ 0%Z.
Proof.
  unfold usable_tab, truthy_id. split.
  - destruct t as [tab'|]; [|done].
    destruct (tab_id tab') as [n|] eqn:Hid; [|done].
    destruct (n =? 0)%Z eqn:Hz; [done|].
    intros [= <- <-]. apply Z.eqb_neq in Hz. by rewrite Hid.
  - intros (-> & -> & Hnz). apply Z.eqb_neq in Hnz. by rewrite Hnz.
Qed.

(** X21.  The [GET_TAB_INFO] handler never throws.  When the sender has a
    tab with a non-zero identifier it answers with that tab, whatever the
    query for the active tab would give.  Otherwise it looks at the first
    tab of the query only: it answers with it when it has a non-zero
    identifier, with ['No active tab found'] when it has not or there is
    none, and with a [success: false] response when the query is
    rejected. *)
Theorem GET_TAB_INFO_answers browser sender :
  ∃ response,
    GET_TAB_INFO browser sender = Ok response
    ∧ (∀ tab tabId,
         sender_tab sender = Some tab → tab_id tab = Some tabId →
         tabId ≠ 0%Z →
         response = success_data (tab_info browser tab tabId))
    ∧ (usable_tab (sender_tab sender) = None →
       (∀ tab tabs tabId,
          active_tabs browser = Ok (tab :: tabs) →
          tab_id tab = Some tabId → tabId ≠ 0%Z →
          response = success_data (tab_info browser tab tabId))
       ∧ (∀ tabs,
            active_tabs browser = Ok tabs → usable_tab (head tabs) = None →
            response = failure "No active tab found")
       ∧ (∀ error,
            active_tabs browser = Thrown error →
            success_of response = Some false)).
Proof.
  unfold GET_TAB_INFO.
  destruct (usable_tab (sender_tab sender)) as [[tab0 id0]|] eqn:Hsender.
  - eexists. split; [done|]. split; [|done].
    intros tab tabId Ht Hid Hnz.
    assert (usable_tab (sender_tab sender) = Some (tab, tabId)) as Hu
      by by apply usable_tab_Some.
    rewrite Hsender in Hu. by injection Hu as -> ->.
  - destruct (active_tabs browser) as [tabs|e] eqn:Hq.
    + destruct (usable_tab (head tabs)) as [[tab0 id0]|] eqn:Hhead.
      * eexists. split; [done|]. split.
        { intros tab tabId Ht Hid Hnz.
          assert (usable_tab (sender_tab sender) = Some (tab, tabId)) as Hu
            by by apply usable_tab_Some.
          by rewrite Hsender in Hu. }
        intros _. split; [|split].
        { intros tab tabs' tabId [= ->] Hid Hnz.
          change (head (tab :: tabs')) with (Some tab) in Hhead.
          assert (usable_tab (Some tab) = Some (tab, tabId)) as Hu
            by by apply usable_tab_Some.
          rewrite Hhead in Hu. by injection Hu as -> ->. }
        { intros tabs' [= <-] Hnone. by rewrite Hhead in Hnone. }
        { by intros error. }
      * eexists. split; [done|]. split.
        { intros tab tabId Ht Hid Hnz.
          assert (usable_tab (sender_tab sender) = Some (tab, tabId)) as Hu
            by by apply usable_tab_Some.
          by rewrite Hsender in Hu. }
        intros _. split; [|split].
        { intros tab tabs' tabId [= ->] Hid Hnz.
          change (head (tab :: tabs')) with (Some tab) in Hhead.
          assert (usable_tab (Some tab) = Some (tab, tabId)) as Hu
            by by apply usable_tab_Some.
          by rewrite Hhead in Hu. }
        { done. }
        { by intros error. }
    + eexists. split; [done|]. split.
      { intros tab tabId Ht Hid Hnz.
        assert (usable_tab (sender_tab sender) = Some (tab, tabId)) as Hu
          by by apply usable_tab_Some.
        by rewrite Hsender in Hu. }
      intros _. split; [done|]. split; [done|].
      intros error _. apply success_of_failure.
Qed.

Lemma GET_TAB_INFO_answers_witness :
  let browser :=
    {| active_tabs :=
         Ok [ mkTab (Some 0%Z) "" ""; mkTab (Some 9%Z) "https://x/" "X" ];
       favIconUrl := λ _, None |} in
  let tab := mkTab (Some 4%Z) "https://a.example/" "A" in
  GET_TAB_INFO browser (mkSender (Some tab))
  = Ok (success_data (tab_info browser tab 4%Z))
  ∧ GET_TAB_INFO browser (mkSender None) = Ok (failure "No active tab found").
Proof.
  intros browser tab. split.
  - destruct (GET_TAB_INFO_answers browser (mkSender (Some tab)))
      as (response & Hr & Hsender & _).
    rewrite Hr. f_equal. by apply Hsender.
  - destruct (GET_TAB_INFO_answers browser (mkSender None))
      as (response & Hr & _ & Hpopup).
    rewrite Hr. f_equal.
    destruct (Hpopup eq_refl) as (_ & Hnone & _).
    by apply (Hnone [ mkTab (Some 0%Z) "" "";
                      mkTab (Some 9%Z) "https://x/" "X" ]).
Defined.

Lemma GET_SETTINGS_returns area : ∃ v, (GET_SETTINGS area).1 = Ok v.
Proof.
  unfold GET_SETTINGS, try_catch, mbind, Async_bind.
  rewrite getUserSettings_eq. by eexists.
Qed.

Lemma UPDATE_SETTINGS_returns message area :
  ∃ v, (UPDATE_SETTINGS message area).1 = Ok v.
Proof.
  unfold UPDATE_SETTINGS, try_catch, mbind, Async_bind.
  rewrite updateUserSettings_eq. simpl.
  destruct (set_rejects area); by eexists.
Qed.

Lemma CHECK_FEATURE_ACCESS_returns message area :
  ∃ v, (CHECK_FEATURE_ACCESS message area).1 = Ok v.
Proof. rewrite CHECK_FEATURE_ACCESS_eq. by eexists. Qed.

Lemma GET_TAB_INFO_returns browser sender :
  ∃ v, GET_TAB_INFO browser sender = Ok v.
Proof.
  unfold GET_TAB_INFO.
  destruct (usable_tab (sender_tab sender)) as [[? ?]|]; [by eexists|].
  destruct (active_tabs browser) as [tabs|]; [|by eexists].
  destruct (usable_tab (head tabs)) as [[? ?]|]; by eexists.
Qed.

Lemma listener_fulfilled {C} handlers message sender handler v
    (sendResponse : value → C → C) :
  handlers !! msg_type message = Some handler →
  handler message sender = promise_of (Ok v) →
  createMessageListener handlers message sender sendResponse
  = mkRun (Ok true) id (sendResponse v).
Proof.
  intros Hh Hr. by rewrite (listener_own _ _ _ _ _ Hh), Hr.
Qed.

(** X22.  Each of the six tags of [ExtensionMessage] has a handler in
    [messageHandlers], and every handler's promise fulfils: for a message
    with one of these tags the background listener returns [true], sends
    nothing before returning, and sends exactly one response afterwards,
    whatever the payload, the sender, the settings area and the browser
    are. *)
Theorem messageHandlers_answer_once area browser message sender :
  msg_type message ∈ message_types →
  ∃ response,
    (∀ (C : Type) (sendResponse : value → C → C),
       createMessageListener (messageHandlers area browser) message sender
         sendResponse
       = mkRun (Ok true) id (sendResponse response))
    ∧ responses
        (createMessageListener (messageHandlers area browser) message sender
           record_response)
      = [response].
Proof.
  intros Htag.
  assert (∃ handler response,
            messageHandlers area browser !! msg_type message = Some handler
            ∧ handler message sender = promise_of (Ok response))
    as (handler & response & Hh & Hr).
  { unfold message_types in Htag.
    repeat (apply elem_of_cons in Htag as [->|Htag]);
      [..|by apply elem_of_nil in Htag].
    - destruct (GET_SETTINGS_returns area) as [v Hv].
      eexists _, v. split; [reflexivity|]. simpl. by rewrite Hv.
    - destruct (UPDATE_SETTINGS_returns message area) as [v Hv].
      eexists _, v. split; [reflexivity|]. simpl. by rewrite Hv.
    - destruct (GET_TAB_INFO_returns browser sender) as [v Hv].
      eexists _, v. split; [reflexivity|]. simpl. by rewrite Hv.
    - eexists _, _. split; reflexivity.
    - eexists _, _. split; reflexivity.
    - destruct (CHECK_FEATURE_ACCESS_returns message area) as [v Hv].
      eexists _, v. split; [reflexivity|]. simpl. by rewrite Hv. }
  exists response. split.
  - intros C sendResponse. by apply (listener_fulfilled _ _ _ handler).
  - by rewrite (listener_fulfilled _ _ _ handler response).
Qed.

Lemma messageHandlers_answer_once_witness :
  let browser := {| active_tabs := Ok []; favIconUrl := λ _, None |} in
  ∃ response,
    responses
      (createMessageListener (messageHandlers (area_with ∅) browser)
         (mkMessage "PERFORM_ACTION" None) (mkSender None) record_response)
    = [response].
Proof.
  intros browser.
  destruct (messageHandlers_answer_once (area_with ∅) browser
              (mkMessage "PERFORM_ACTION" None) (mkSender None))
    as (response & _ & Hlog).
  - by apply (bool_decide_unpack _).
  - by exists response.
Defined.

End ServiceWorkerFacts.

(* ===================================================================== *)
(** ** Content script *)
(* ===================================================================== *)

Section ContentScriptFacts.

Implicit Types (page : Page) (st : ScriptState) (rt : Runtime)
  (message : ExtensionMessage).

Lemma member_present (response : option value) name :
  nullish response = false →
  member response name = Ok (props_of response !! name).
Proof. by destruct response as [[]|]. Qed.

Lemma member_nullish (response : option value) name :
  nullish response = true → ∃ error, member response name = Thrown error.
Proof. destruct response as [[]|]; try done; by eexists. Qed.

Lemma refresh_settings_present (response : option value) st rt :
  nullish response = false →
  refresh_settings response (st, rt) = (Ok (), (refreshed response st, rt)).
Proof.
  intros Hnull.
  unfold refresh_settings, refreshed, usable_data, mbind, Async_bind, settled.
  rewrite !(member_present _ _ Hnull).
  destruct (props_of response !! "success") as [ok|]; [|done]. simpl.
  destruct (truthy ok); [|by destruct (props_of response !! "data")].
  destruct (props_of response !! "data") as [data|]; [|done]. simpl.
  by destruct (truthy data).
Qed.

Lemma refresh_settings_nullish (response : option value) st rt :
  nullish response = true →
  ∃ error, refresh_settings response (st, rt) = (Thrown error, (st, rt)).
Proof.
  intros Hnull. destruct (member_nullish response "success" Hnull) as [e He].
  exists e. unfold refresh_settings, mbind, Async_bind, settled.
  by rewrite He.
Qed.

Lemma handleMessage_other page message w :
  msg_type message ≠ "UPDATE_SETTINGS" →
  msg_type message ≠ "PERFORM_ACTION" →
  handleMessage page message w = (Ok (unknown_type (msg_type message)), w).
Proof.
  intros Hu Hp. unfold handleMessage.
  apply String.eqb_neq in Hu as ->. by apply String.eqb_neq in Hp as ->.
Qed.

(** X23.  In the content script, a message whose tag is neither
    [UPDATE_SETTINGS] nor [PERFORM_ACTION] is answered with
    [{ success: false, error: "Unknown message type: <tag>" }]: the
    listener returns [true] and replies once, and neither the script's
    state nor the channel changes.  The tag is compared with [switch], so
    this holds for every string. *)
Theorem content_listener_unknown_type page message w :
  msg_type message ≠ "UPDATE_SETTINGS" →
  msg_type message ≠ "PERFORM_ACTION" →
  (∀ (C : Type) (sendResponse : value → C → C),
     content_listener page message sendResponse w
     = (mkRun (Ok true) id (sendResponse (unknown_type (msg_type message))),
        w))
  ∧ responses (content_listener page message record_response w).1
    = [unknown_type (msg_type message)].
Proof.
  intros Hu Hp. unfold content_listener.
  rewrite (handleMessage_other _ _ _ Hu Hp). by split.
Qed.

Lemma content_listener_unknown_type_witness :
  let page := mkPage "https://a.example/" "A" VNull in
  let w := (mkScript false None, runtime_with (λ _, Ok None)) in
  responses
    (content_listener page (mkMessage "__proto__" None) record_response w).1
  = [VObj {[ "success" := VBool false;
             "error" := VStr "Unknown message type: __proto__" ]}].
Proof.
  intros page w.
  by apply (proj2 (content_listener_unknown_type page
                     (mkMessage "__proto__" None) w
                     ltac:(discriminate) ltac:(discriminate))).
Defined.

Lemma handleMessage_action page message w :
  msg_type message = "PERFORM_ACTION" →
  handleMessage page message w = (handleAction page (payload message), w).
Proof. intros Ht. unfold handleMessage. by rewrite Ht. Qed.

(** X24.  A [PERFORM_ACTION] message never makes the content script's
    listener throw, and leaves the script's state and the channel as they
    were.  The action ['extractData'] is answered with the page data; an
    action name other than the two known ones is answered with
    ["Unknown action: <name>"]; a message without a payload is answered
    with a [success: false] response made from the [TypeError]. *)
Theorem content_listener_action page message w :
  msg_type message = "PERFORM_ACTION" →
  ∃ response,
    (∀ (C : Type) (sendResponse : value → C → C),
       content_listener page message sendResponse w
       = (mkRun (Ok true) id (sendResponse response), w))
    ∧ (∀ p,
         payload message = Some (VObj p) →
         p !! "action" = Some (VStr "extractData") →
         response = success_data (extracted page))
    ∧ (∀ p name,
         payload message = Some (VObj p) →
         p !! "action" = Some (VStr name) →
         name ≠ "highlightElements" → name ≠ "extractData" →
         response = failure ("Unknown action: " +:+ name))
    ∧ (payload message = None → success_of response = Some false).
Proof.
  intros Ht. unfold content_listener.
  rewrite (handleMessage_action _ _ _ Ht).
  exists (match handleAction page (payload message) with
          | Ok response => response
          | Thrown error => failure (error_text error)
          end).
  split; [|split; [|split]].
  - intros C sendResponse. by destruct (handleAction page (payload message)).
  - intros p -> Ha. unfold handleAction. simpl. by rewrite Ha.
  - intros p name -> Ha Hh He. unfold handleAction. simpl. rewrite Ha.
    apply String.eqb_neq in Hh as ->. by apply String.eqb_neq in He as ->.
  - by intros ->.
Qed.

Lemma content_listener_action_witness :
  let page := mkPage "https://a.example/" "A" (VObj {[ "url" := VStr "u" ]}) in
  let w := (mkScript true None, runtime_with (λ _, Ok None)) in
  let listen payload :=
    responses
      (content_listener page (mkMessage "PERFORM_ACTION" payload)
         record_response w).1 in
  listen (Some (VObj {[ "action" := VStr "extractData" ]}))
  = [success_data (extracted page)]
  ∧ listen (Some (VObj {[ "action" := VStr "reload" ]}))
    = [failure "Unknown action: reload"]
  ∧ ∃ response, listen None = [response] ∧ success_of response = Some false.
Proof.
  intros page w listen. split; [|split].
  - destruct (content_listener_action page
                (mkMessage "PERFORM_ACTION"
                   (Some (VObj {[ "action" := VStr "extractData" ]})))
                w eq_refl) as (response & Hrun & Hextract & _).
    unfold listen. rewrite (Hrun (list value) record_response).
    by rewrite (Hextract {[ "action" := VStr "extractData" ]}).
  - destruct (content_listener_action page
                (mkMessage "PERFORM_ACTION"
                   (Some (VObj {[ "action" := VStr "reload" ]})))
                w eq_refl) as (response & Hrun & _ & Hunknown & _).
    unfold listen. rewrite (Hrun (list value) record_response).
    by rewrite (Hunknown {[ "action" := VStr "reload" ]} "reload").
  - destruct (content_listener_action page
                (mkMessage "PERFORM_ACTION" None) w eq_refl)
      as (response & Hrun & _ & _ & Hnone).
    exists response. unfold listen.
    rewrite (Hrun (list value) record_response). split; [done|].
    by apply Hnone.
Defined.

Lemma initialize_first page st rt :
  isInitialized st = false →
  initialize page (st, rt) =
    (Ok (),
     (if nullish (reply_of rt settings_request) then st
      else
        {| isInitialized := true;
           currentSettings :=
             currentSettings (refreshed (reply_of rt settings_request) st) |},
      runtime_after rt [ready_message page; settings_request])).
Proof.
  intros Hinit. unfold initialize. rewrite Hinit.
  unfold try_catch, notifyContentScriptReady, requestSettings.
  unfold mbind at 1. unfold Async_bind at 1.
  unfold with_runtime at 1. rewrite sendMessage_eq.
  unfold mbind at 1. unfold Async_bind at 1.
  unfold with_runtime at 1. rewrite sendMessage_eq.
  assert (runtime_after (runtime_after rt [ready_message page])
            [settings_request]
          = runtime_after rt [ready_message page; settings_request]) as Hrt.
  { unfold runtime_after. simpl. by rewrite <- app_assoc. }
  unfold mbind at 1. unfold Async_bind at 1.
  change (mkMessage "GET_SETTINGS" None) with settings_request.
  change (mkMessage "CONTENT_SCRIPT_READY" _) with (ready_message page).
  rewrite Hrt.
  change (reply_of (runtime_after rt [ready_message page]) settings_request)
    with (reply_of rt settings_request).
  destruct (nullish (reply_of rt settings_request)) eqn:Hnull.
  - by destruct (refresh_settings_nullish _ st
                   (runtime_after rt [ready_message page; settings_request])
                   Hnull) as [e ->].
  - by rewrite refresh_settings_present.
Qed.

Lemma refreshed_failure text st : refreshed (Some (failure text)) st = st.
Proof. reflexivity. Qed.

Lemma reply_of_rejected rt message error :
  answer rt message = Thrown error →
  reply_of rt message = Some (failure (error_text error)).
Proof. intros Ha. unfold reply_of. by rewrite Ha. Qed.

(** X25.  [initialize] does nothing once the script is initialised.
    Before that it sends the ready notification and then the settings
    request, in this order, and never throws.  If the settings response is
    neither [null] nor [undefined], the script is initialised afterwards
    (so a further call does nothing), and the current settings are the
    response's data when the response has truthy [success] and [data],
    and are left as they were otherwise; in particular they are left as
    they were when the request is rejected in transport.  If the response
    is [null] or [undefined] (no listener replied), the member access
    throws inside the [try] and the script's state stays as it was,
    uninitialised. *)
Theorem initialize_once page st rt :
  (isInitialized st = true → initialize page (st, rt) = (Ok (), (st, rt)))
  ∧ (isInitialized st = false →
     ∃ st',
       initialize page (st, rt)
       = (Ok (),
          (st', runtime_after rt [ready_message page; settings_request]))
       ∧ (nullish (reply_of rt settings_request) = false →
          isInitialized st' = true
          ∧ currentSettings st'
            = currentSettings (refreshed (reply_of rt settings_request) st)
          ∧ ∀ rt', initialize page (st', rt') = (Ok (), (st', rt')))
       ∧ (nullish (reply_of rt settings_request) = true → st' = st)
       ∧ (∀ error,
            answer rt settings_request = Thrown error →
            isInitialized st' = true
            ∧ currentSettings st' = currentSettings st)).
Proof.
  split.
  - intros Hinit. unfold initialize. by rewrite Hinit.
  - intros Hinit. eexists. split; [by apply initialize_first|].
    split; [|split].
    + intros ->. split; [done|]. split; [done|].
      intros rt'. by unfold initialize.
    + by intros ->.
    + intros error Ha. by rewrite (reply_of_rejected _ _ _ Ha).
Qed.

Lemma initialize_once_witness :
  let page := mkPage "https://a.example/" "A" VNull in
  let settings := VObj (<[ "enabled" := VBool false ]> DEFAULT_USER_SETTINGS) in
  let rt := runtime_with (λ _, Ok (Some (success_data settings))) in
  let silent := runtime_with (λ _, Ok None) in
  (∃ st',
     initialize page (mkScript false None, rt)
     = (Ok (), (st', runtime_after rt [ready_message page; settings_request]))
     ∧ isInitialized st' = true
     ∧ currentSettings st' = Some settings
     ∧ ∀ rt', initialize page (st', rt') = (Ok (), (st', rt')))
  ∧ initialize page (mkScript false None, silent)
    = (Ok (),
       (mkScript false None,
        runtime_after silent [ready_message page; settings_request])).
Proof.
  intros page settings rt silent. split.
  - destruct (proj2 (initialize_once page (mkScript false None) rt) eq_refl)
      as (st' & Hinit & Hdone & _).
    exists st'. split; [exact Hinit|].
    destruct (Hdone eq_refl) as (Hi & Hc & Hagain).
    split; [exact Hi|]. split; [exact Hc|]. exact Hagain.
  - destruct (proj2 (initialize_once page (mkScript false None) silent)
                eq_refl) as (st' & Hinit & _ & Hsilent & _).
    rewrite Hinit. by rewrite (Hsilent eq_refl).
Defined.

Lemma handleMessage_update page message st rt :
  msg_type message = "UPDATE_SETTINGS" →
  handleMessage page message (st, rt) =
    match member (reply_of rt settings_request) "success" with
    | Thrown error => (Thrown error, (st, runtime_after rt [settings_request]))
    | Ok _ =>
        (Ok success_only,
         (refreshed (reply_of rt settings_request) st,
          runtime_after rt [settings_request]))
    end.
Proof.
  intros Ht. unfold handleMessage. rewrite Ht. simpl.
  unfold requestSettings.
  unfold mbind at 1. unfold Async_bind at 1.
  unfold with_runtime at 1. rewrite sendMessage_eq.
  unfold mbind at 1. unfold Async_bind at 1.
  change (mkMessage "GET_SETTINGS" None) with settings_request.
  destruct (nullish (reply_of rt settings_request)) eqn:Hnull.
  - destruct (member_nullish _ "success" Hnull) as [e He]. rewrite He.
    unfold refresh_settings, mbind, Async_bind, settled. by rewrite He.
  - rewrite (member_present _ _ Hnull).
    by rewrite refresh_settings_present.
Qed.

(** X26.  On an [UPDATE_SETTINGS] message the content script sends one
    settings request and replies once, without throwing.  If the response
    to the request is neither [null] nor [undefined], the reply is
    [{ success: true }] and the current settings are the response's data
    when the response has truthy [success] and [data], and are left as
    they were otherwise; so a request that is rejected in transport still
    gives the reply [{ success: true }], with the settings left as they
    were.  If the response is [null] or [undefined] (no listener replied),
    the reply is a [success: false] response and the settings are left as
    they were. *)
Theorem content_listener_settings_updated page message st rt :
  msg_type message = "UPDATE_SETTINGS" →
  ∃ reply st',
    (∀ (C : Type) (sendResponse : value → C → C),
       content_listener page message sendResponse (st, rt)
       = (mkRun (Ok true) id (sendResponse reply),
          (st', runtime_after rt [settings_request])))
    ∧ (nullish (reply_of rt settings_request) = false →
       reply = success_only
       ∧ st' = refreshed (reply_of rt settings_request) st)
    ∧ (nullish (reply_of rt settings_request) = true →
       success_of reply = Some false ∧ st' = st)
    ∧ (∀ error,
         answer rt settings_request = Thrown error →
         reply = success_only ∧ st' = st).
Proof.
  intros Ht. unfold content_listener.
  rewrite (handleMessage_update _ _ _ _ Ht).
  destruct (nullish (reply_of rt settings_request)) eqn:Hnull.
  - destruct (member_nullish _ "success" Hnull) as [e He]. rewrite He.
    eexists _, _. split; [done|]. split; [done|]. split; [done|].
    intros error Ha. by rewrite (reply_of_rejected _ _ _ Ha) in Hnull.
  - rewrite (member_present _ _ Hnull).
    eexists _, _. split; [done|]. split; [done|]. split; [done|].
    intros error Ha. rewrite (reply_of_rejected _ _ _ Ha).
    split; [done|]. apply refreshed_failure.
Qed.

Lemma content_listener_settings_updated_witness :
  let page := mkPage "https://a.example/" "A" VNull in
  let rt :=
    runtime_with (λ _, Thrown (ErrorObj "Extension context invalidated.")) in
  let silent := runtime_with (λ _, Ok None) in
  let st := mkScript true (Some (VObj DEFAULT_USER_SETTINGS)) in
  let message := mkMessage "UPDATE_SETTINGS" None in
  content_listener page message record_response (st, rt)
  = (mkRun (Ok true) id (record_response success_only),
     (st, runtime_after rt [settings_request]))
  ∧ ∃ reply,
      content_listener page message record_response (st, silent)
      = (mkRun (Ok true) id (record_response reply),
         (st, runtime_after silent [settings_request]))
      ∧ success_of reply = Some false.
Proof.
  intros page rt silent st message. split.
  - destruct (content_listener_settings_updated page message st rt eq_refl)
      as (reply & st' & Hrun & _ & _ & Hfail).
    rewrite (Hrun (list value) record_response).
    by destruct (Hfail (ErrorObj "Extension context invalidated.") eq_refl)
      as [-> ->].
  - destruct (content_listener_settings_updated page message st silent
                eq_refl) as (reply & st' & Hrun & _ & Hsilent & _).
    exists reply. rewrite (Hrun (list value) record_response).
    by destruct (Hsilent eq_refl) as [-> ->].
Defined.

End ContentScriptFacts.
